(** * rag-frontend: the upload screen and the chat screen as state machines

    The two React components of the repository are embedded as explicit
    state-passing machines.  A component's [useState] cells form a record,
    every event handler is a function on that record, and what the handlers
    leave behind in the browser (an outstanding [fetch], a live
    [setInterval], a pending [setTimeout]) is kept next to the record so
    that the continuation of an [async] handler can be run when the
    environment delivers the corresponding event.  Values produced by the
    environment ([Math.random()], [new Date()], the outcome of a request)
    are carried by the events. *)

From Stdlib Require Import ZArith NArith QArith Lqa List String Ascii Bool Lia.
From stdpp Require Import base option list numbers.
Import ListNotations.

Local Open Scope Z_scope.

(** ** JavaScript values *)

Module Js.

(** A JavaScript string is a sequence of UTF-16 code units. *)
Definition jsstring : Type := list N.

(** An ASCII literal of the source. *)
Definition lit (s : string) : jsstring :=
  map N_of_ascii (list_ascii_of_string s).
Arguments lit s%_string.

(** Code points removed by [String.prototype.trim]: WhiteSpace (TAB, VT,
    FF, ZWNBSP and the Unicode category Zs) and LineTerminator. *)
Definition is_white_space (c : N) : bool :=
  existsb (N.eqb c)
    [9; 10; 11; 12; 13; 32; 160; 5760; 8232; 8233; 8239; 8287; 12288; 65279]%N
  || ((8192 <=? c)%N && (c <=? 8202)%N).

Fixpoint trimStart (s : jsstring) : jsstring :=
  match s with
  | [] => []
  | c :: rest => if is_white_space c then trimStart rest else s
  end.

Definition trimEnd (s : jsstring) : jsstring := rev (trimStart (rev s)).

Definition trim (s : jsstring) : jsstring := trimEnd (trimStart s).

(** Values: what [JSON.parse] builds, plus [undefined].  An object is the
    list of its own properties. *)
#[local] Unset Elimination Schemes.
Inductive value : Type :=
| VUndefined
| VNull
| VBool (b : bool)
| VNum (q : Q)
| VStr (s : jsstring)
| VArr (items : list value)
| VObj (props : list (jsstring * value)).
#[local] Set Elimination Schemes.

(** ToBoolean of a string: the empty string is falsy. *)
Definition truthy_string (s : jsstring) : bool :=
  match s with [] => false | _ :: _ => true end.

Fixpoint own_property (k : jsstring) (props : list (jsstring * value))
  : option value :=
  match props with
  | [] => None
  | (k', v) :: rest => if decide (k = k') then Some v else own_property k rest
  end.

(** Completion of an evaluation: a value, or a thrown value (for a
    promise: fulfilled or rejected). *)
Inductive completion (A : Type) : Type :=
| Normal (a : A)
| Throw (e : value).
Arguments Normal {A} a.
Arguments Throw {A} e.

#[global] Instance completion_ret : MRet completion := fun _ a => Normal a.
#[global] Instance completion_bind : MBind completion := fun _ _ k c =>
  match c with
  | Normal a => k a
  | Throw e => Throw e
  end.

(** [try { body } catch (err) { handler err }] *)
Definition try_catch {A} (body : completion A) (handler : value -> completion A)
  : completion A :=
  match body with
  | Normal a => Normal a
  | Throw e => handler e
  end.

(** [new Error(msg)], as far as the program looks at it. *)
Definition Error (msg : jsstring) : value := VObj [(lit "message", VStr msg)].

(** [TypeError] raised by a property read on [null] or [undefined]. *)
Definition TypeError : value :=
  VObj [(lit "message", VStr (lit "Cannot read properties of null"))].

Definition nullish (v : value) : bool :=
  match v with
  | VUndefined | VNull => true
  | _ => false
  end.

(** The property [k] of a value that is neither [null] nor [undefined],
    for the keys the program reads ([answer], [response], [message]): none
    of them is defined on a built-in prototype, so the read gives the own
    property of an object, and [undefined] otherwise. *)
Definition prop (v : value) (k : jsstring) : value :=
  match v with
  | VObj props => default VUndefined (own_property k props)
  | _ => VUndefined
  end.

(** [v.k]: a [TypeError] on [null] and [undefined]. *)
Definition get (v : value) (k : jsstring) : completion value :=
  if nullish v then Throw TypeError else Normal (prop v k).

(** [v?.k] *)
Definition get_opt (v : value) (k : jsstring) : value :=
  if nullish v then VUndefined else prop v k.

(** [a ?? b] on values. *)
Definition coalesce_value (a b : value) : value :=
  if nullish a then b else a.

(** [a ?? b] on expressions that may throw: [b] is evaluated only when [a]
    is [null] or [undefined]. *)
Definition coalesce (a b : completion value) : completion value :=
  v ← a; if nullish v then b else Normal v.

(** The environment's answer to a [fetch]. *)
Record Response : Type := mkResponse {
  status : Z;
  json : completion value   (* what [response.json()] settles to *)
}.

(** [response.ok]: the status is in the range 200-299. *)
Definition ok (r : Response) : bool :=
  (200 <=? status r) && (status r <=? 299).

Inductive fetch_outcome : Type :=
| NetworkFailure (e : value)     (* the promise of [fetch] rejects *)
| Responded (r : Response).

Definition await_fetch (net : fetch_outcome) : completion Response :=
  match net with
  | NetworkFailure e => Throw e
  | Responded r => Normal r
  end.

(** ToString of a non-negative integer: its decimal digits. *)
Fixpoint uint_units (d : Decimal.uint) : jsstring :=
  match d with
  | Decimal.Nil => []
  | Decimal.D0 r => 48%N :: uint_units r
  | Decimal.D1 r => 49%N :: uint_units r
  | Decimal.D2 r => 50%N :: uint_units r
  | Decimal.D3 r => 51%N :: uint_units r
  | Decimal.D4 r => 52%N :: uint_units r
  | Decimal.D5 r => 53%N :: uint_units r
  | Decimal.D6 r => 54%N :: uint_units r
  | Decimal.D7 r => 55%N :: uint_units r
  | Decimal.D8 r => 56%N :: uint_units r
  | Decimal.D9 r => 57%N :: uint_units r
  end.

Definition decimal (n : N) : jsstring := uint_units (N.to_uint n).

(** The integer [n] that [x.toFixed(1)] prints as [n / 10], for the
    non-negative [x = num / den]: the one with [n / 10] nearest to [x], the
    larger one on a tie. *)
Definition tenths (num den : N) : N := ((20 * num + den) / (2 * den))%N.

(** [(num / den).toFixed(1)] for a quotient below 10^21, where [toFixed]
    prints decimal notation (from 10^21 on it prints an exponent, which
    is not modelled).  The program divides an integer below 2^53 by a
    power of two, which is exact on JavaScript numbers, so the quotient is
    the rational it is here. *)
Definition toFixed1 (num den : N) : jsstring :=
  let n := tenths num den in
  decimal (n / 10) ++ lit "." ++ decimal (n mod 10).

(** [s.split(sep)] for a separator of one code unit; the result is never
    empty. *)
Fixpoint split (sep : N) (s : jsstring) : list jsstring :=
  match s with
  | [] => [[]]
  | c :: rest =>
      if N.eqb c sep then [] :: split sep rest
      else match split sep rest with
           | seg :: segs => (c :: seg) :: segs
           | [] => [[c]]
           end
  end.

(** [xs.includes(x)] on strings. *)
Definition includes (xs : list jsstring) (x : jsstring) : bool :=
  bool_decide (x ∈ xs).

(** Lower case of a code unit of the ASCII range, and the strings made of
    such code units. *)
Definition ascii_lower (c : N) : N :=
  if ((65 <=? c) && (c <=? 90))%N then (c + 32)%N else c.

Definition is_ascii (s : jsstring) : Prop := Forall (fun c => (c < 128)%N) s.

End Js.

Import Js.

(** ** The chat screen (component [ChatBot]) *)

Module Message.

Inductive Mode : Type := file_only | rag.

Inductive Role : Type := user | assistant | error.

(** [interface Message].  [content] is typed [string] in the source, but an
    assistant message holds whatever field the backend sent, so the model
    keeps the runtime value.  [mode] is optional. *)
Record t : Type := mk {
  id : jsstring;
  role : Role;
  content : value;
  mode : option Mode;
  timestamp : Z
}.

End Message.

Module Chat.

Export Message.

Abbreviation Message := Message.t.

Notation "a ?? b" := (coalesce a b) (at level 50, left associativity).

(** The string a [Mode] is at run time. *)
Definition mode_string (m : Mode) : jsstring :=
  match m with
  | file_only => lit "file_only"
  | rag => lit "rag"
  end.

Definition CHAT_API_URL : jsstring :=
  lit "https://rag-backend-1-x6fr.onrender.com/api/chat".

Definition FALLBACK : jsstring := lit "Something went wrong. Please try again.".

(** What [sendMessage] hands to [fetch]; [body] is the object given to
    [JSON.stringify]. *)
Record Request : Type := mkRequest {
  url : jsstring;
  method : jsstring;
  headers : list (jsstring * jsstring);
  body : value
}.

Definition chat_request (question : jsstring) : Request :=
  {| url := CHAT_API_URL;
     method := lit "POST";
     headers := [(lit "Content-Type", lit "application/json")];
     body := VObj [(lit "question", VStr question); (lit "mode", VStr (lit "rag"))] |}.

(** [sendMessage(question)], given how the request of [chat_request
    question] turns out.  The calls of [console.error] have no effect on
    the program and are left out. *)
Definition sendMessage (question : jsstring) (net : fetch_outcome)
  : completion value :=
  try_catch
    (response ← await_fetch net;
     if negb (ok response) then Throw (Error FALLBACK)
     else
       data ← json response;
       get data (lit "answer")
         ?? get data (lit "response")
         ?? get data (lit "message")
         ?? Normal (VStr FALLBACK))
    (fun err => Normal (VStr FALLBACK)).

(** The three fields [sendMessage] reads, in the order it reads them. *)
Definition answer_fields : list jsstring :=
  [lit "answer"; lit "response"; lit "message"].

(** The first field of the body, in that order, that is there with a value
    other than [null]. *)
Definition first_non_null (data : value) : option value :=
  head (List.filter (fun v => negb (nullish v)) (map (prop data) answer_fields)).

(** The specification's reading of the body: the first field, in that
    order, that the body has, whatever its value. *)
Definition first_present (data : value) : option value :=
  match data with
  | VObj props => head (omap (fun k => own_property k props) answer_fields)
  | _ => None
  end.

(** The [useState] cells of [ChatBot]. *)
Record State : Type := mkState {
  messages : list Message;
  input : jsstring;
  mode : Mode;
  loading : bool
}.

Definition setMessages (f : list Message -> list Message) (st : State) : State :=
  {| messages := f (messages st); input := input st;
     mode := mode st; loading := loading st |}.

Definition setInput (v : jsstring) (st : State) : State :=
  {| messages := messages st; input := v;
     mode := mode st; loading := loading st |}.

Definition setLoading (b : bool) (st : State) : State :=
  {| messages := messages st; input := input st;
     mode := mode st; loading := b |}.

(** A call of [handleSend] suspended at [await sendMessage(prompt)]: the
    request it has sent and the variables its continuation closes over. *)
Record Pending : Type := mkPending {
  request : Request;
  prompt : jsstring;
  closure_mode : Mode
}.

(** The component together with the calls of [handleSend] that wait for the
    network. *)
Record Session : Type := mkSession {
  state : State;
  outstanding : list Pending
}.

(** The text of the first bubble; 8226 is the bullet and 8212 the em dash
    of the template literal. *)
Definition welcome (fileName : jsstring) : jsstring :=
  lit "Document loaded. I'm ready to answer questions about **" ++ fileName
    ++ lit "**." ++ [10; 10]%N
    ++ lit "Use the toggle to switch between:" ++ [10; 8226]%N
    ++ lit " **File Only** " ++ [8212]%N
    ++ lit " strict answers from the document" ++ [10; 8226]%N
    ++ lit " **AI + File** " ++ [8212]%N
    ++ lit " enhanced answers using AI reasoning".

(** First render of [ChatBot]: the initial values of the [useState] cells. *)
Definition ChatBot (fileName : jsstring) (newId : jsstring) (now : Z) : Session :=
  {| state :=
       {| messages :=
            [ {| id := newId; role := assistant;
                 content := VStr (welcome fileName);
                 Message.mode := None; timestamp := now |} ];
          input := [];
          mode := file_only;
          loading := false |};
     outstanding := [] |}.

(** [handleSend] up to its [await]. *)
Definition handleSend (newId : jsstring) (now : Z) (s : Session) : Session :=
  let st := state s in
  let prompt := trim (input st) in
  if negb (truthy_string prompt) || loading st then s
  else
    let userMsg :=
      {| id := newId; role := user; content := VStr prompt;
         Message.mode := None; timestamp := now |} in
    let st := setMessages (fun prev => prev ++ [userMsg]) st in
    let st := setInput [] st in
    let st := setLoading true st in
    {| state := st;
       outstanding := outstanding s ++
         [ {| request := chat_request prompt; prompt := prompt;
              closure_mode := mode (state s) |} ] |}.

(** [handleSend] from its [await] on: [try] / [catch] / [finally].  The
    focus given back to the textarea is not part of the state. *)
Definition handleSend_resume (p : Pending) (net : fetch_outcome)
    (newId : jsstring) (now : Z) (st : State) : State :=
  let st :=
    match sendMessage (prompt p) net with
    | Normal answer =>
        let assistantMsg :=
          {| id := newId; role := assistant; content := answer;
             Message.mode := Some (closure_mode p); timestamp := now |} in
        setMessages (fun prev => prev ++ [assistantMsg]) st
    | Throw err =>
        let errorMsg :=
          {| id := newId; role := error;
             content :=
               coalesce_value (get_opt err (lit "message")) (VStr FALLBACK);
             Message.mode := None; timestamp := now |} in
        setMessages (fun prev => prev ++ [errorMsg]) st
    end in
  setLoading false st.

(** [disabled] of the send button. *)
Definition send_disabled (st : State) : bool :=
  negb (truthy_string (trim (input st))) || loading st.

(** [disabled] of the textarea. *)
Definition textarea_disabled (st : State) : bool := loading st.

(** What can happen to a mounted [ChatBot]. *)
Inductive Event : Type :=
| InputChange (v : jsstring)
    (* the user edits the textarea: [handleInputChange] *)
| Send (newId : jsstring) (now : Z)
    (* click on the send button, or Enter without Shift: [handleSend] *)
| Settle (i : nat) (net : fetch_outcome) (newId : jsstring) (now : Z).
    (* the [i]-th outstanding request settles *)

Definition step (e : Event) (s : Session) : Session :=
  match e with
  | InputChange v =>
      if textarea_disabled (state s) then s
      else {| state := setInput v (state s); outstanding := outstanding s |}
  | Send newId now => handleSend newId now s
  | Settle i net newId now =>
      match outstanding s !! i with
      | None => s
      | Some p =>
          {| state := handleSend_resume p net newId now (state s);
             outstanding := delete i (outstanding s) |}
      end
  end.

Definition run (evs : list Event) (s : Session) : Session :=
  fold_left (fun s e => step e s) evs s.

(** The sessions a user can bring about for a given file name. *)
Inductive reachable (fileName : jsstring) : Session -> Prop :=
| reachable_mount newId now :
    reachable fileName (ChatBot fileName newId now)
| reachable_step s e :
    reachable fileName s -> reachable fileName (step e s).

(** [handleKeyDown]: Enter without Shift sends; the first component says
    whether [preventDefault] was called. *)
Record KeyboardEvent : Type := mkKeyboardEvent {
  key : jsstring;
  shiftKey : bool
}.

Definition handleKeyDown (e : KeyboardEvent) (newId : jsstring) (now : Z)
    (s : Session) : bool * Session :=
  if bool_decide (key e = lit "Enter") && negb (shiftKey e)
  then (true, handleSend newId now s)
  else (false, s).

#[global] Instance Role_eq_dec : EqDecision Role.
Proof. solve_decision. Defined.

(** The label of a mode, as the header and the badges print it. *)
Definition mode_label (m : Mode) : jsstring :=
  match m with
  | rag => lit "AI + File"
  | file_only => lit "File Only"
  end.

(** What [MessageBubble] renders of a message, colours and time apart:
    the side it is on, the text of the avatar, the mode badge if there is
    one, and the content. *)
Record Bubble : Type := mkBubble {
  reversed : bool;
  avatar : jsstring;
  badge : option jsstring;
  text : value
}.

Definition MessageBubble (msg : Message) : Bubble :=
  let isUser := bool_decide (role msg = user) in
  let isError := bool_decide (role msg = error) in
  {| reversed := isUser;
     avatar := if isUser then lit "U" else if isError then lit "!" else lit "AI";
     badge :=
       if negb isUser && negb isError
       then mode_label <$> Message.mode msg
       else None;
     text := content msg |}.

(** The roles of a conversation: the greeting, then questions and replies
    in turn, and a last question while its reply is awaited. *)
Definition conversation (n : nat) (awaiting : bool) : list Role :=
  assistant :: concat (repeat [user; assistant] n)
    ++ (if awaiting then [user] else []).

(** A string with no white space at either end. *)
Definition trimmed (s : jsstring) : Prop :=
  (forall c rest, s = c :: rest -> is_white_space c = false) /\
  (forall c front, s = front ++ [c] -> is_white_space c = false).

Definition is_settle (e : Event) : bool :=
  match e with Settle _ _ _ _ => true | _ => false end.

(** The invariant of the screen: [loading] is set exactly while a request
    is outstanding, there is at most one, the input is empty meanwhile,
    the mode never leaves [file_only], every outstanding request is the
    one [sendMessage] builds for its prompt, and no message has the role
    [error]. *)
Definition chat_inv (s : Session) : Prop :=
  mode (state s) = file_only /\
  Forall (fun p => request p = chat_request (prompt p)
                   /\ closure_mode p = file_only) (outstanding s) /\
  Forall (fun m => role m <> error) (messages (state s)) /\
  if loading (state s)
  then input (state s) = [] /\ exists p, outstanding s = [p]
  else outstanding s = [].

End Chat.

(** ** The upload screen (component [FileUpload]) *)

Module Upload.

(** A browser [File], as far as the component reads it. *)
Record File : Type := mkFile {
  name : jsstring;
  size : N
}.

(** The [useState] cells of [FileUpload].  [progress] is a JavaScript
    number; it is kept as an exact rational. *)
Record State : Type := mkState {
  file : option File;
  dragOver : bool;
  uploading : bool;
  progress : Q;
  uploaded : bool;
  uploadedFileName : jsstring
}.

Definition setFile (f : option File) (st : State) : State :=
  {| file := f; dragOver := dragOver st; uploading := uploading st;
     progress := progress st; uploaded := uploaded st;
     uploadedFileName := uploadedFileName st |}.

Definition setDragOver (b : bool) (st : State) : State :=
  {| file := file st; dragOver := b; uploading := uploading st;
     progress := progress st; uploaded := uploaded st;
     uploadedFileName := uploadedFileName st |}.

Definition setUploading (b : bool) (st : State) : State :=
  {| file := file st; dragOver := dragOver st; uploading := b;
     progress := progress st; uploaded := uploaded st;
     uploadedFileName := uploadedFileName st |}.

Definition setProgress (f : Q -> Q) (st : State) : State :=
  {| file := file st; dragOver := dragOver st; uploading := uploading st;
     progress := f (progress st); uploaded := uploaded st;
     uploadedFileName := uploadedFileName st |}.

Definition setUploaded (b : bool) (st : State) : State :=
  {| file := file st; dragOver := dragOver st; uploading := uploading st;
     progress := progress st; uploaded := b;
     uploadedFileName := uploadedFileName st |}.

Definition setUploadedFileName (n : jsstring) (st : State) : State :=
  {| file := file st; dragOver := dragOver st; uploading := uploading st;
     progress := progress st; uploaded := uploaded st;
     uploadedFileName := n |}.

Definition UPLOAD_API_URL : jsstring :=
  lit "https://rag-backend-1-x6fr.onrender.com/api/upload".

(** What [handleUpload] hands to [fetch]: a POST whose body is a
    [FormData] with the file under the key [file]. *)
Record UploadRequest : Type := mkUploadRequest {
  url : jsstring;
  method : jsstring;
  formData : list (jsstring * File)
}.

Definition upload_request (f : File) : UploadRequest :=
  {| url := UPLOAD_API_URL; method := lit "POST";
     formData := [(lit "file", f)] |}.

(** Where a call of [handleUpload] stands: suspended at [await fetch], or
    waiting for the timer it has set, or over. *)
Inductive Stage : Type :=
| AwaitingFetch
| AwaitingTimeout (ms : Z)
| Finished.

(** A call of [handleUpload]: the [file] it closes over, the request it
    has sent, whether its [setInterval] timer is still live, and its
    stage. *)
Record Call : Type := mkCall {
  closure_file : File;
  request : UploadRequest;
  interval_live : bool;
  stage : Stage
}.

Definition set_interval_live (b : bool) (c : Call) : Call :=
  {| closure_file := closure_file c; request := request c;
     interval_live := b; stage := stage c |}.

Definition set_stage (g : Stage) (c : Call) : Call :=
  {| closure_file := closure_file c; request := request c;
     interval_live := interval_live c; stage := g |}.

Record Session : Type := mkSession {
  state : State;
  calls : list Call
}.

(** First render of [FileUpload]. *)
Definition FileUpload : Session :=
  {| state := {| file := None; dragOver := false; uploading := false;
                 progress := 0; uploaded := false; uploadedFileName := [] |};
     calls := [] |}.

(** [e.target.files && e.target.files[0]] and the same test on
    [e.dataTransfer.files]. *)
Definition first_file (files : list File) : option File := head files.

Definition handleFileChange (files : list File) (st : State) : State :=
  match first_file files with
  | Some f => setUploaded false (setFile (Some f) st)
  | None => st
  end.

Definition handleDragOver (st : State) : State := setDragOver true st.

Definition handleDragLeave (st : State) : State := setDragOver false st.

Definition handleDrop (files : list File) (st : State) : State :=
  let st := setDragOver false st in
  match first_file files with
  | Some f => setUploaded false (setFile (Some f) st)
  | None => st
  end.

(** [handleUpload] up to its [await]: the flags are set, the interval
    timer is started and the request is sent. *)
Definition handleUpload (s : Session) : Session :=
  match file (state s) with
  | None => s
  | Some f =>
      let st := setUploading true (state s) in
      let st := setProgress (fun _ => 0%Q) st in
      {| state := st;
         calls := calls s ++
           [ {| closure_file := f; request := upload_request f;
                interval_live := true; stage := AwaitingFetch |} ] |}
  end.

(** The rest of a call runs on the call's own record and on the cells;
    an exception leaves both as they are at the [throw]. *)
Definition Eff (A : Type) : Type := Call * State -> completion A * (Call * State).

#[global] Instance eff_ret : MRet Eff := fun _ a cs => (Normal a, cs).
#[global] Instance eff_bind : MBind Eff := fun _ _ k m cs =>
  match m cs with
  | (Normal a, cs') => k a cs'
  | (Throw e, cs') => (Throw e, cs')
  end.

Definition throw {A} (e : value) : Eff A := fun cs => (Throw e, cs).

Definition try_eff {A} (body : Eff A) (handler : value -> Eff A) : Eff A :=
  fun cs =>
    match body cs with
    | (Normal a, cs') => (Normal a, cs')
    | (Throw e, cs') => handler e cs'
    end.

Definition await (net : fetch_outcome) : Eff Response :=
  fun cs => (await_fetch net, cs).

Definition clearInterval : Eff unit :=
  fun '(c, st) => (Normal tt, (set_interval_live false c, st)).

Definition set_state (f : State -> State) : Eff unit :=
  fun '(c, st) => (Normal tt, (c, f st)).

(** [setTimeout(() => { ... }, ms)] with the callback [upload_done]
    below, which both branches of [handleUpload] pass. *)
Definition setTimeout (ms : Z) : Eff unit :=
  fun '(c, st) => (Normal tt, (set_stage (AwaitingTimeout ms) c, st)).

(** The callback of the interval timer; [random] is [Math.random()].  The
    sum is the exact one; the code has it rounded to a JavaScript number. *)
Definition interval_callback (random : Q) : Eff unit :=
  fun '(c, st) =>
    let prev := progress st in
    if Qle_bool 90 prev
    then (clearInterval ;; set_state (setProgress (fun _ => 90%Q))) (c, st)
    else set_state (setProgress (fun _ => (prev + random * 15)%Q)) (c, st).

(** [handleUpload] from its [await] on. *)
Definition handleUpload_resume (net : fetch_outcome) : Eff unit :=
  try_eff
    (response ← await net;
     clearInterval ;;
     set_state (setProgress (fun _ => 100%Q)) ;;
     (if negb (ok response) then throw (Error (lit "Upload failed"))
      else mret tt) ;;
     setTimeout 600)
    (fun error =>
       clearInterval ;;
       (* Demo: treat as success *)
       set_state (setProgress (fun _ => 100%Q)) ;;
       setTimeout 600).

(** The callback given to [setTimeout]. *)
Definition upload_done (c : Call) (st : State) : State :=
  let st := setUploadedFileName (name (closure_file c)) st in
  let st := setUploaded true st in
  setUploading false st.

Definition handleReset (st : State) : State :=
  let st := setFile None st in
  let st := setUploaded false st in
  let st := setProgress (fun _ => 0%Q) st in
  setUploadedFileName [] st.

(** What [FileUpload] returns: the chat component with its [fileName]
    prop (its [onReset] prop is [handleReset]), or the upload card. *)
Inductive View : Type :=
| ChatView (fileName : jsstring)
| UploadView.

Definition render (st : State) : View :=
  if uploaded st then ChatView (uploadedFileName st) else UploadView.

Definition is_Some_b {A} (o : option A) : bool :=
  match o with Some _ => true | None => false end.

(** [disabled={!file || uploading}] of the upload button. *)
Definition upload_disabled (st : State) : bool :=
  negb (is_Some_b (file st)) || uploading st.

(** [file && !uploading]: the clear button is rendered. *)
Definition clear_shown (st : State) : bool :=
  is_Some_b (file st) && negb (uploading st).

Inductive Event : Type :=
| FileChange (files : list File)   (* [onChange] of the file input *)
| DragOver
| DragLeave
| Drop (files : list File)
| ClickUpload                      (* the upload button *)
| ClickClear                       (* the button next to it *)
| ClickNew                         (* [onReset] of the chat component *)
| Tick (i : nat) (random : Q)      (* the interval timer of call [i] fires *)
| FetchSettled (i : nat) (net : fetch_outcome)
| TimerFired (i : nat).            (* the timeout set by call [i] fires *)

Definition on_view (v : bool) (s s' : Session) : Session :=
  if bool_decide (uploaded (state s) = v) then s' else s.

Definition with_state (f : State -> State) (s : Session) : Session :=
  {| state := f (state s); calls := calls s |}.

Definition run_call (i : nat) (m : Eff unit) (s : Session) : Session :=
  match calls s !! i with
  | None => s
  | Some c =>
      let '(_, (c', st')) := m (c, state s) in
      {| state := st'; calls := <[i := c']> (calls s) |}
  end.

Definition stage_of (i : nat) (s : Session) : option Stage :=
  stage <$> calls s !! i.

(** An event that the rendered view cannot deliver, or a timer that is
    not pending, changes nothing. *)
Definition step (e : Event) (s : Session) : Session :=
  match e with
  | FileChange files => on_view false s (with_state (handleFileChange files) s)
  | DragOver => on_view false s (with_state handleDragOver s)
  | DragLeave => on_view false s (with_state handleDragLeave s)
  | Drop files => on_view false s (with_state (handleDrop files) s)
  | ClickUpload =>
      on_view false s (if upload_disabled (state s) then s else handleUpload s)
  | ClickClear =>
      on_view false s
        (if clear_shown (state s) then with_state handleReset s else s)
  | ClickNew => on_view true s (with_state handleReset s)
  | Tick i random =>
      match calls s !! i with
      | Some c =>
          if interval_live c then run_call i (interval_callback random) s else s
      | None => s
      end
  | FetchSettled i net =>
      match stage_of i s with
      | Some AwaitingFetch => run_call i (handleUpload_resume net) s
      | _ => s
      end
  | TimerFired i =>
      match calls s !! i with
      | Some c =>
          match stage c with
          | AwaitingTimeout _ =>
              {| state := upload_done c (state s);
                 calls := <[i := set_stage Finished c]> (calls s) |}
          | _ => s
          end
      | None => s
      end
  end.

Definition run (evs : list Event) (s : Session) : Session :=
  fold_left (fun s e => step e s) evs s.

(** [Math.random()] is at least 0 and below 1. *)
Definition valid (e : Event) : Prop :=
  match e with
  | Tick _ random => (0 <= random /\ random < 1)%Q
  | _ => True
  end.

Inductive reachable : Session -> Prop :=
| reachable_mount : reachable FileUpload
| reachable_step s e : reachable s -> valid e -> reachable (step e s).

(** [formatFileSize], for the sizes a JavaScript number holds exactly
    (below 2^53). *)
Definition formatFileSize (bytes : N) : jsstring :=
  if (bytes <? 1024)%N then decimal bytes ++ lit " B"
  else if (bytes <? 1024 * 1024)%N then toFixed1 bytes 1024 ++ lit " KB"
  else toFixed1 bytes (1024 * 1024) ++ lit " MB".

Section FileIcon.

(** [String.prototype.toLowerCase] is the browser's; the component's use
    of it is modelled for any such function. *)
Variable toLowerCase : jsstring -> jsstring.

(** [getFileIcon]; the results are the code units of the seven emoji. *)
Definition getFileIcon (name : jsstring) : jsstring :=
  let ext := toLowerCase <$> list.last (split 46 name) in
  if includes [lit "jpg"; lit "jpeg"; lit "png"; lit "gif"; lit "svg"; lit "webp"]
       (default [] ext) then [55357; 56764]%N
  else if includes [lit "pdf"] (default [] ext) then [55357; 56516]%N
  else if includes [lit "zip"; lit "rar"; lit "7z"] (default [] ext)
       then [55357; 56796]%N
  else if includes [lit "mp4"; lit "mov"; lit "avi"] (default [] ext)
       then [55356; 57260]%N
  else if includes [lit "mp3"; lit "wav"; lit "flac"] (default [] ext)
       then [55356; 57269]%N
  else if includes [lit "doc"; lit "docx"] (default [] ext) then [55357; 56541]%N
  else [55357; 56513]%N.

End FileIcon.

(** The events leave the upload as it is: its calls, [uploading], the
    progress and the recorded name. *)
Definition same_upload (s s' : Session) : Prop :=
  calls s' = calls s /\
  uploading (state s') = uploading (state s) /\
  progress (state s') = progress (state s) /\
  uploadedFileName (state s') = uploadedFileName (state s).

(** A call that is not over. *)
Definition in_flight (c : Call) : bool :=
  match stage c with Finished => false | _ => true end.

(** The invariant of the screen: an interval timer is live only in a call
    that waits for its request; while [uploading] is clear every call is
    over; while it is set the upload card is rendered and the last call is
    the only one not over, and once that call waits for its timer the
    delay is 600 ms and the progress is 100. *)
Definition upload_inv (s : Session) : Prop :=
  Forall (fun c => interval_live c = true -> stage c = AwaitingFetch) (calls s) /\
  if uploading (state s)
  then uploaded (state s) = false /\
       exists cs c, calls s = cs ++ [c] /\
         Forall (fun c' => stage c' = Finished) cs /\
         stage c <> Finished /\
         (forall ms, stage c = AwaitingTimeout ms ->
                     ms = 600 /\ progress (state s) = 100%Q)
  else Forall (fun c => stage c = Finished) (calls s).

(** The event is the settling of the request of call [i] or the firing of
    its timer. *)
Definition concerns (i : nat) (e : Event) : bool :=
  match e with
  | FetchSettled j _ | TimerFired j => Nat.eqb j i
  | _ => false
  end.

End Upload.

(** ** Facts about the chat screen *)

Section ChatFacts.

Import Chat.


Lemma truthy_string_false (s : jsstring) : truthy_string s = false <-> s = [].
Proof. destruct s; simpl; split; congruence. Qed.

Lemma truthy_string_true (s : jsstring) : truthy_string s = true <-> s <> [].
Proof. destruct s; simpl; split; congruence. Qed.

(** [sendMessage] always fulfils its promise, and what it fulfils it with
    depends on the outcome of the request only. *)
Lemma sendMessage_ok (question : jsstring) (r : Response) (data : value) :
  ok r = true -> json r = Normal data ->
  sendMessage question (Responded r)
  = Normal (default (VStr FALLBACK) (first_non_null data)).
Proof.
  intros Hok Hjson. unfold sendMessage, first_non_null, answer_fields.
  simpl. rewrite Hok, Hjson. simpl.
  destruct data as [| | | | | |props]; try reflexivity.
  unfold get, coalesce; simpl.
  destruct (prop (VObj props) (lit "answer")) eqn:Ea; simpl in *;
    rewrite ?Ea; simpl; try reflexivity;
  destruct (prop (VObj props) (lit "response")) eqn:Er; simpl in *;
    rewrite ?Er; simpl; try reflexivity;
  destruct (prop (VObj props) (lit "message")) eqn:Em; simpl in *;
    rewrite ?Em; simpl; reflexivity.
Qed.

Lemma sendMessage_not_ok (question : jsstring) (r : Response) :
  ok r = false -> sendMessage question (Responded r) = Normal (VStr FALLBACK).
Proof. intros Hok. unfold sendMessage. simpl. rewrite Hok. reflexivity. Qed.

Lemma sendMessage_bad_body (question : jsstring) (r : Response) (e : value) :
  json r = Throw e -> sendMessage question (Responded r) = Normal (VStr FALLBACK).
Proof.
  intros Hjson. unfold sendMessage. simpl.
  destruct (ok r); simpl; [rewrite Hjson|]; reflexivity.
Qed.

Lemma sendMessage_network_failure (question : jsstring) (e : value) :
  sendMessage question (NetworkFailure e) = Normal (VStr FALLBACK).
Proof. reflexivity. Qed.

Lemma sendMessage_fulfils (question : jsstring) (net : fetch_outcome) :
  exists answer, sendMessage question net = Normal answer.
Proof.
  destruct net as [e|r].
  - eexists. apply sendMessage_network_failure.
  - destruct (ok r) eqn:Hok.
    + destruct (json r) as [data|e] eqn:Hjson.
      * eexists. by apply sendMessage_ok.
      * eexists. by eapply sendMessage_bad_body.
    + eexists. by apply sendMessage_not_ok.
Qed.

(** What [handleSend] does when its guard lets it through. *)
Lemma handleSend_proceeds (newId : jsstring) (now : Z) (s : Session) :
  trim (input (state s)) <> [] -> loading (state s) = false ->
  handleSend newId now s
  = {| state :=
         {| messages := messages (state s) ++
              [ {| id := newId; role := user;
                   content := VStr (trim (input (state s)));
                   Message.mode := None; timestamp := now |} ];
            input := [];
            mode := mode (state s);
            loading := true |};
       outstanding := outstanding s ++
         [ {| request := chat_request (trim (input (state s)));
              prompt := trim (input (state s));
              closure_mode := mode (state s) |} ] |}.
Proof.
  intros Hne Hl. unfold handleSend.
  apply truthy_string_true in Hne. rewrite Hne, Hl. reflexivity.
Qed.

Lemma handleSend_blocked (newId : jsstring) (now : Z) (s : Session) :
  trim (input (state s)) = [] \/ loading (state s) = true ->
  handleSend newId now s = s.
Proof.
  intros H. unfold handleSend.
  destruct H as [H|H].
  - apply truthy_string_false in H. by rewrite H.
  - rewrite H. by rewrite orb_true_r.
Qed.

(** The message the continuation of [handleSend] appends. *)
Lemma handleSend_resume_appends (p : Pending) (net : fetch_outcome)
    (newId : jsstring) (now : Z) (st : State) :
  exists answer,
    sendMessage (prompt p) net = Normal answer /\
    handleSend_resume p net newId now st
    = {| messages := messages st ++
           [ {| id := newId; role := assistant; content := answer;
                Message.mode := Some (closure_mode p); timestamp := now |} ];
         input := input st; mode := mode st; loading := false |}.
Proof.
  destruct (sendMessage_fulfils (prompt p) net) as [answer Ha].
  exists answer. split; [done|].
  unfold handleSend_resume. rewrite Ha. reflexivity.
Qed.

Lemma step_settle (i : nat) (net : fetch_outcome) (newId : jsstring) (now : Z)
    (s : Session) (p : Pending) :
  outstanding s !! i = Some p ->
  step (Settle i net newId now) s
  = {| state := handleSend_resume p net newId now (state s);
       outstanding := delete i (outstanding s) |}.
Proof. intros Hp. simpl. by rewrite Hp. Qed.

Lemma chat_inv_mount (fileName newId : jsstring) (now : Z) :
  chat_inv (ChatBot fileName newId now).
Proof.
  unfold chat_inv; simpl. repeat split; auto.
Qed.

Lemma chat_inv_step (e : Event) (s : Session) :
  chat_inv s -> chat_inv (step e s).
Proof.
  intros (Hmode & Hreq & Hrole & Hload).
  destruct e as [v | newId now | i net newId now]; simpl.
  - unfold textarea_disabled.
    destruct (loading (state s)) eqn:Hl.
    + unfold chat_inv. rewrite Hl. auto.
    + unfold chat_inv; simpl. rewrite Hl. auto.
  - destruct (loading (state s)) eqn:Hl.
    + rewrite handleSend_blocked by auto.
      unfold chat_inv. rewrite Hl. auto.
    + destruct (decide (trim (input (state s)) = [])) as [He|Hne].
      * rewrite handleSend_blocked by auto.
        unfold chat_inv. rewrite Hl. auto.
      * rewrite handleSend_proceeds by auto.
        unfold chat_inv; simpl. rewrite Hload. simpl.
        repeat split; eauto.
        apply Forall_app; split; [done|].
        constructor; [discriminate | constructor].
  - destruct (outstanding s !! i) as [p|] eqn:Hp; [|by unfold chat_inv].
    destruct (loading (state s)) eqn:Hl; [|by rewrite Hload in Hp].
    destruct Hload as (Hin & q & Hq). rewrite Hq in Hp.
    destruct i as [|i]; [|done]. simpl in Hp.
    destruct (handleSend_resume_appends p net newId now (state s))
      as (answer & _ & ->).
    unfold chat_inv; simpl. rewrite Hq. simpl.
    repeat split; auto.
    apply Forall_app; split; [done|].
    constructor; [discriminate | constructor].
Qed.

Lemma chat_inv_reachable (fileName : jsstring) (s : Session) :
  reachable fileName s -> chat_inv s.
Proof.
  induction 1; [apply chat_inv_mount | by apply chat_inv_step].
Qed.



(** Every handler extends the list of messages at its end. *)
Lemma step_prefix (e : Event) (s : Session) :
  messages (state s) `prefix_of` messages (state (step e s)).
Proof.
  destruct e as [v | newId now | i net newId now]; simpl.
  - destruct (textarea_disabled (state s)); done.
  - unfold handleSend.
    destruct (negb (truthy_string (trim (input (state s)))) || loading (state s));
      simpl; [done | by apply prefix_app_r].
  - destruct (outstanding s !! i) as [p|]; [|done]. simpl.
    unfold handleSend_resume.
    destruct (sendMessage (prompt p) net); simpl; by apply prefix_app_r.
Qed.

(** While a request is outstanding the only event that changes anything
    is its settling. *)
Lemma step_while_loading (e : Event) (s : Session) :
  loading (state s) = true -> is_settle e = false -> step e s = s.
Proof.
  intros Hl He. destruct e as [v | newId now | i net newId now]; simpl.
  - unfold textarea_disabled. by rewrite Hl.
  - apply handleSend_blocked. auto.
  - done.
Qed.

Lemma run_while_loading (evs : list Event) (s : Session) :
  loading (state s) = true -> forallb (fun e => negb (is_settle e)) evs = true ->
  run evs s = s.
Proof.
  intros Hl. induction evs as [|e evs IH]; simpl; [done|].
  intros [He Hevs]%andb_true_iff. apply negb_true_iff in He.
  rewrite step_while_loading by done. by apply IH.
Qed.

End ChatFacts.

(** ** Facts about the upload screen *)

Section UploadFacts.

Import Upload.

(** Whatever the request comes to, the continuation of [handleUpload]
    ends the same way: interval cleared, progress at 100, timer set. *)
Lemma handleUpload_resume_any (net : fetch_outcome) (c : Call) (st : State) :
  handleUpload_resume net (c, st)
  = (Normal tt,
     (set_stage (AwaitingTimeout 600) (set_interval_live false c),
      setProgress (fun _ => 100%Q) st)).
Proof.
  destruct net as [e|r]; [reflexivity|].
  unfold handleUpload_resume, try_eff, await, mbind, eff_bind. simpl.
  destruct (ok r); reflexivity.
Qed.

Lemma interval_callback_eq (random : Q) (c : Call) (st : State) :
  interval_callback random (c, st)
  = if Qle_bool 90 (progress st)
    then (Normal tt,
          (set_interval_live false c, setProgress (fun _ => 90%Q) st))
    else (Normal tt,
          (c, setProgress (fun _ => (progress st + random * 15)%Q) st)).
Proof. unfold interval_callback. destruct (Qle_bool 90 (progress st)); reflexivity. Qed.

(** [handleUpload] on a selected file starts a call that closes over it. *)
Lemma handleUpload_starts (s : Session) (f : File) :
  file (state s) = Some f ->
  calls (handleUpload s) !! length (calls s)
  = Some {| closure_file := f; request := upload_request f;
            interval_live := true; stage := AwaitingFetch |}.
Proof.
  intros Hf. unfold handleUpload. rewrite Hf. simpl.
  rewrite lookup_app_r by lia. by rewrite Nat.sub_diag.
Qed.

Lemma step_settled (i : nat) (net : fetch_outcome) (s : Session) (c : Call) :
  calls s !! i = Some c -> stage c = AwaitingFetch ->
  step (FetchSettled i net) s
  = {| state := setProgress (fun _ => 100%Q) (state s);
       calls := <[i := set_stage (AwaitingTimeout 600)
                         (set_interval_live false c)]> (calls s) |}.
Proof.
  intros Hc Hs. simpl. unfold stage_of. rewrite Hc. simpl. rewrite Hs.
  unfold run_call. rewrite Hc. by rewrite handleUpload_resume_any.
Qed.

Lemma step_timer (i : nat) (s : Session) (c : Call) (ms : Z) :
  calls s !! i = Some c -> stage c = AwaitingTimeout ms ->
  state (step (TimerFired i) s) = upload_done c (state s).
Proof. intros Hc Hs. simpl. rewrite Hc, Hs. reflexivity. Qed.

(** Events other than the settling of call [i]'s request and the firing of
    its timer leave the file it closes over and its stage alone. *)
Lemma step_call_stable (e : Event) (s : Session) (i : nat) (c : Call) :
  calls s !! i = Some c -> concerns i e = false ->
  exists c', calls (step e s) !! i = Some c'
             /\ closure_file c' = closure_file c /\ request c' = request c
             /\ stage c' = stage c.
Proof.
  intros Hc He.
  assert (Hself : exists c', calls s !! i = Some c'
             /\ closure_file c' = closure_file c /\ request c' = request c
             /\ stage c' = stage c)
    by (by exists c).
  destruct e as [files| | |files| | | |j random|j net|j]; simpl;
    unfold on_view, with_state; try (case_bool_decide; simpl; by auto).
  - case_bool_decide; [|done].
    destruct (upload_disabled (state s)); [done|].
    unfold handleUpload. destruct (file (state s)); [|done]. simpl.
    exists c. split; [|done]. apply lookup_app_l_Some. done.
  - case_bool_decide; [|done].
    destruct (clear_shown (state s)); simpl; done.
  - destruct (calls s !! j) as [cj|] eqn:Hj; [|done].
    destruct (interval_live cj); [|done].
    unfold run_call. rewrite Hj, interval_callback_eq.
    destruct (Qle_bool 90 (progress (state s))); simpl.
    + destruct (decide (i = j)) as [->|Hne].
      * rewrite list_lookup_insert_eq by (by eapply lookup_lt_Some).
        eexists. split; [done|]. simpl. by simplify_eq.
      * by rewrite list_lookup_insert_ne.
    + destruct (decide (i = j)) as [->|Hne].
      * rewrite list_lookup_insert_eq by (by eapply lookup_lt_Some).
        eexists. split; [done|]. by simplify_eq.
      * by rewrite list_lookup_insert_ne.
  - simpl in He. apply Nat.eqb_neq in He.
    unfold stage_of. destruct (calls s !! j) as [cj|] eqn:Hj; simpl; [|done].
    destruct (stage cj) eqn:Hsj; try done.
    unfold run_call. rewrite Hj, handleUpload_resume_any. simpl.
    by rewrite list_lookup_insert_ne.
  - simpl in He. apply Nat.eqb_neq in He.
    destruct (calls s !! j) as [cj|] eqn:Hj; [|done].
    destruct (stage cj); try done. simpl.
    by rewrite list_lookup_insert_ne.
Qed.

Lemma run_call_stable (evs : list Event) (s : Session) (i : nat) (c : Call) :
  calls s !! i = Some c -> forallb (fun e => negb (concerns i e)) evs = true ->
  exists c', calls (run evs s) !! i = Some c'
             /\ closure_file c' = closure_file c /\ request c' = request c
             /\ stage c' = stage c.
Proof.
  revert s c. induction evs as [|e evs IH]; intros s c Hc Hevs; simpl.
  - by exists c.
  - apply andb_true_iff in Hevs as [He Hevs]. apply negb_true_iff in He.
    destruct (step_call_stable e s i c Hc He) as (c1 & Hc1 & Hf1 & Hq1 & Hs1).
    destruct (IH (step e s) c1 Hc1 Hevs) as (c2 & Hc2 & Hf2 & Hq2 & Hs2).
    exists c2. split; [done|]. repeat split; congruence.
Qed.

(** From the start of an upload on the selected file [f] to the firing
    of its timer, whatever else happens in between. *)
Lemma upload_flow (s : Session) (f : File) (net : fetch_outcome)
    (evs1 evs2 : list Event) :
  file (state s) = Some f ->
  let i := length (calls s) in
  forallb (fun e => negb (concerns i e)) evs1 = true ->
  forallb (fun e => negb (concerns i e)) evs2 = true ->
  let s1 := run evs1 (handleUpload s) in
  let s2 := step (FetchSettled i net) s1 in
  let s3 := run evs2 s2 in
  (exists c1, calls s1 !! i = Some c1
              /\ closure_file c1 = f /\ request c1 = upload_request f
              /\ stage c1 = AwaitingFetch) /\
  (exists c3, calls s3 !! i = Some c3
              /\ closure_file c3 = f /\ stage c3 = AwaitingTimeout 600).
Proof.
  intros Hf i H1 H2 s1 s2 s3.
  destruct (run_call_stable evs1 (handleUpload s) i _
              (handleUpload_starts s f Hf) H1) as (c1 & Hc1 & Hf1 & Hq1 & Hs1).
  simpl in Hf1, Hq1, Hs1. split; [by exists c1|].
  assert (Hc2 : calls s2 !! i
                = Some (set_stage (AwaitingTimeout 600)
                          (set_interval_live false c1))).
  { unfold s2. rewrite (step_settled i net s1 c1) by done. simpl.
    apply list_lookup_insert_eq. by eapply lookup_lt_Some. }
  destruct (run_call_stable evs2 s2 i _ Hc2 H2) as (c3 & Hc3 & Hf3 & _ & Hs3).
  simpl in Hf3, Hs3. exists c3. split; [done|]. split; congruence.
Qed.


Lemma upload_reachable_run (evs : list Event) (s : Session) :
  reachable s -> Forall valid evs -> reachable (run evs s).
Proof.
  revert s. induction evs as [|e evs IH]; intros s Hs Hv; simpl; [done|].
  inversion Hv; subst. apply IH; [by constructor | done].
Qed.

(** X14. The bound the interval timer does keep: its test comes before the
    increment, so the value stays below 90 + 15. *)
Lemma progress_bound (s : Session) :
  reachable s -> (0 <= progress (state s) /\ progress (state s) < 105)%Q.
Proof.
  induction 1 as [|s e Hs IH Hv]; [simpl; lra|].
  destruct e as [files| | |files| | | |j random|j net|j]; simpl;
    unfold on_view, with_state.
  - case_bool_decide; [|done]. simpl. unfold handleFileChange.
    destruct (first_file files); done.
  - case_bool_decide; done.
  - case_bool_decide; done.
  - case_bool_decide; [|done]. simpl. unfold handleDrop.
    destruct (first_file files); done.
  - case_bool_decide; [|done].
    destruct (upload_disabled (state s)); [done|].
    unfold handleUpload. destruct (file (state s)); [simpl; lra | done].
  - case_bool_decide; [|done].
    destruct (clear_shown (state s)); [simpl; lra | done].
  - case_bool_decide; [simpl; lra | done].
  - destruct (calls s !! j) as [cj|] eqn:Hj; [|done].
    destruct (interval_live cj); [|done].
    unfold run_call. rewrite Hj, interval_callback_eq.
    destruct (Qle_bool 90 (progress (state s))) eqn:Hle; simpl; [lra|].
    assert (progress (state s) < 90)%Q.
    { apply Qnot_le_lt. intros Hc. apply Qle_bool_iff in Hc. congruence. }
    simpl in Hv. lra.
  - unfold stage_of. destruct (calls s !! j) as [cj|] eqn:Hj; simpl; [|done].
    destruct (stage cj); try done.
    unfold run_call. rewrite Hj, handleUpload_resume_any. simpl. lra.
  - destruct (calls s !! j) as [cj|] eqn:Hj; [|done].
    destruct (stage cj); done.
Qed.

End UploadFacts.

(** ** The upload flow *)

Section UploadProperties.

Import Upload.

(** C1. Every upload attempt on a selected file sends the file in a POST
    to [/api/upload] and ends as a success, whatever that request comes
    to: after a network failure or a response of any status the client is
    in the very state a 2xx response leaves it in, with a timer of 600 ms
    pending, and when that timer fires the name of the file is recorded,
    [uploaded] is set and [uploading] is cleared. *)
Theorem upload_failure_reported_as_success (s : Session) (f : File)
    (net : fetch_outcome) (evs : list Event) :
  file (state s) = Some f ->
  let i := length (calls s) in
  forallb (fun e => negb (concerns i e)) evs = true ->
  let s1 := run evs (handleUpload s) in
  let s2 := step (FetchSettled i net) s1 in
  let s3 := step (TimerFired i) s2 in
  (exists c, calls s1 !! i = Some c /\ stage c = AwaitingFetch
             /\ request c = upload_request f) /\
  (forall r, ok r = true -> s2 = step (FetchSettled i (Responded r)) s1) /\
  stage_of i s2 = Some (AwaitingTimeout 600) /\
  uploadedFileName (state s3) = name f /\
  uploaded (state s3) = true /\
  uploading (state s3) = false.
Proof.
  intros Hf i Hevs s1 s2 s3.
  destruct (upload_flow s f net evs [] Hf Hevs eq_refl)
    as ((c1 & Hc1 & Hf1 & Hq1 & Hs1) & (c2 & Hc2 & Hf2 & Hs2)).
  change (calls s1 !! i = Some c1) in Hc1.
  change (calls s2 !! i = Some c2) in Hc2.
  split; [by exists c1|]. split.
  - intros r _. unfold s2.
    by rewrite !(step_settled i _ s1 c1).
  - split; [unfold stage_of; rewrite Hc2; simpl; by rewrite Hs2|].
    unfold s3. rewrite (step_timer i s2 c2 600) by done.
    simpl. by rewrite Hf2.
Qed.

Lemma upload_failure_reported_as_success_witness :
  let f := {| name := lit "a.pdf"; size := 10 |} in
  let s := step (FileChange [f]) FileUpload in
  let s2 := step (FetchSettled 0 (Responded {| status := 500; json := Normal VNull |}))
              (run [Tick 0 (1 # 2)] (handleUpload s)) in
  let s3 := step (TimerFired 0) s2 in
  uploadedFileName (state s3) = lit "a.pdf" /\
  uploaded (state s3) = true /\ uploading (state s3) = false.
Proof.
  intros f s s2 s3.
  apply (upload_failure_reported_as_success s f
           (Responded {| status := 500; json := Normal VNull |})
           [Tick 0 (1 # 2)]); reflexivity.
Defined.

(** C4. The simulated progress does not stay within 0-100.  With a file
    selected and the upload started, seven firings of the interval timer
    with [Math.random()] at 0.96875 (every value involved is a binary
    fraction, exact as a JavaScript number) take the progress over 87.1875
    to 101.71875 while the transfer is still uploading: the test against
    90 comes before the increment, not after it. *)
Theorem progress_overshoots_100 :
  let f := {| name := lit "a.pdf"; size := 10 |} in
  let evs := [FileChange [f]; ClickUpload] ++ repeat (Tick 0 (31 # 32)) 7 in
  let s := run evs FileUpload in
  reachable s /\
  uploading (state s) = true /\
  stage_of 0 s = Some AwaitingFetch /\
  (progress (state s) == 3255 # 32)%Q /\
  (100 < progress (state s))%Q.
Proof.
  intros f evs s. split.
  - apply upload_reachable_run; [constructor|].
    repeat constructor; simpl; lra.
  - repeat split; vm_compute; reflexivity.
Qed.



(** C9. The reset action of the chat screen is [handleReset]: it clears
    the file, sets [uploaded] to false, the progress to 0 and the stored
    file name to the empty string, and the component renders the upload
    screen again. *)
Theorem reset_restores_upload_screen (s : Session) (fileName : jsstring) :
  render (state s) = ChatView fileName ->
  let s' := step ClickNew s in
  state s' = handleReset (state s) /\
  file (state s') = None /\
  uploaded (state s') = false /\
  progress (state s') = 0%Q /\
  uploadedFileName (state s') = [] /\
  render (state s') = UploadView.
Proof.
  intros Hr s'. unfold render in Hr.
  destruct (uploaded (state s)) eqn:Hu; [|discriminate].
  unfold s', render. simpl. unfold on_view. rewrite Hu.
  rewrite bool_decide_eq_true_2 by done. by repeat split.
Qed.

Lemma reset_restores_upload_screen_witness :
  let f := {| name := lit "a.pdf"; size := 10 |} in
  let s := run [FileChange [f]; ClickUpload;
                FetchSettled 0 (Responded {| status := 200; json := Normal VNull |});
                TimerFired 0] FileUpload in
  let s' := step ClickNew s in
  file (state s') = None /\
  uploaded (state s') = false /\
  progress (state s') = 0%Q /\
  uploadedFileName (state s') = [] /\
  render (state s') = UploadView.
Proof.
  intros f s s'.
  apply (reset_restores_upload_screen s (lit "a.pdf")). reflexivity.
Defined.

End UploadProperties.

(** ** The chat flow *)

Section ChatProperties.

Import Chat.

(** C2, as the specification words it, fails on a field that is present
    with the value [null]: for the body
    [{"answer": null, "response": "Y"}] the first present field is
    [answer], yet [??] passes over it and the answer is ["Y"]. *)
Lemma null_field_is_passed_over :
  let data := VObj [(lit "answer", VNull); (lit "response", VStr (lit "Y"))] in
  let net := Responded {| status := 200; json := Normal data |} in
  first_present data = Some VNull /\
  sendMessage (lit "q") net = Normal (VStr (lit "Y")) /\
  ~ (forall v, first_present data = Some v -> sendMessage (lit "q") net = Normal v).
Proof.
  intros data net. split; [reflexivity|]. split; [reflexivity|].
  intros H. specialize (H VNull eq_refl). discriminate H.
Qed.

(** C2, amended. The answer of a chat request is the first of the fields
    [answer], [response], [message] of the JSON body that is present with
    a value other than [null]; when there is none, when the status is not
    2xx and when the request fails, it is the fixed fallback string.  For the body [{"answer": "X"}] it is ["X"].  The
    bubble appended when the request settles has that answer as content. *)
Theorem chat_answer_first_non_null_field (question : jsstring) :
  (forall r data v,
     ok r = true -> json r = Normal data -> first_non_null data = Some v ->
     sendMessage question (Responded r) = Normal v) /\
  (forall r data,
     ok r = true -> json r = Normal data -> first_non_null data = None ->
     sendMessage question (Responded r) = Normal (VStr FALLBACK)) /\
  (forall r, ok r = false ->
     sendMessage question (Responded r) = Normal (VStr FALLBACK)) /\
  (forall e, sendMessage question (NetworkFailure e) = Normal (VStr FALLBACK)) /\
  (forall r X,
     ok r = true -> json r = Normal (VObj [(lit "answer", VStr X)]) ->
     sendMessage question (Responded r) = Normal (VStr X)) /\
  (forall p net newId now st answer,
     prompt p = question -> sendMessage question net = Normal answer ->
     exists m, messages (handleSend_resume p net newId now st)
               = messages st ++ [m]
               /\ role m = assistant /\ content m = answer).
Proof.
  repeat split.
  - intros r data v Hok Hjson Hv.
    rewrite (sendMessage_ok question r data Hok Hjson). by rewrite Hv.
  - intros r data Hok Hjson Hv.
    rewrite (sendMessage_ok question r data Hok Hjson). by rewrite Hv.
  - intros r. apply sendMessage_not_ok.
  - intros r X Hok Hjson.
    by rewrite (sendMessage_ok question r _ Hok Hjson).
  - intros p net newId now st answer <- Ha.
    unfold handleSend_resume. rewrite Ha. simpl. by eexists.
Qed.

Lemma chat_answer_first_non_null_field_witness :
  sendMessage (lit "q")
    (Responded {| status := 200;
                  json := Normal (VObj [(lit "answer", VNull);
                                        (lit "message", VStr (lit "M"))]) |})
  = Normal (VStr (lit "M")).
Proof.
  destruct (chat_answer_first_non_null_field (lit "q")) as (H & _).
  eapply H; reflexivity.
Defined.

(** C3. In every session the user can reach, sending a message whose
    trimmed text is not empty appends one user message at once; until the
    request settles nothing else is appended; and its settling appends
    one more message, of role assistant or error, after which no call of
    this send is left. *)
Theorem send_appends_user_then_one_reply (fileName : jsstring) (s : Session)
    (id1 id2 : jsstring) (now1 now2 : Z) (net : fetch_outcome)
    (evs : list Event) :
  reachable fileName s ->
  trim (input (state s)) <> [] ->
  forallb (fun e => negb (is_settle e)) evs = true ->
  let s1 := step (Send id1 now1) s in
  let s2 := step (Settle 0 net id2 now2) (run evs s1) in
  exists u a,
    messages (state s1) = messages (state s) ++ [u] /\
    role u = user /\ content u = VStr (trim (input (state s))) /\
    messages (state (run evs s1)) = messages (state s1) /\
    messages (state s2) = messages (state s) ++ [u; a] /\
    (role a = assistant \/ role a = error) /\
    outstanding s2 = [].
Proof.
  intros Hr Hne Hevs s1 s2.
  destruct (chat_inv_reachable fileName s Hr) as (_ & _ & _ & Hload).
  destruct (loading (state s)) eqn:Hl.
  { destruct Hload as [Hin _]. rewrite Hin in Hne. by destruct Hne. }
  pose proof (handleSend_proceeds id1 now1 s Hne Hl) as Hs1.
  change (handleSend id1 now1 s) with s1 in Hs1.
  rewrite Hload in Hs1. simpl in Hs1.
  assert (Hrun : run evs s1 = s1).
  { apply run_while_loading; [by rewrite Hs1 | done]. }
  subst s2. rewrite Hrun. clearbody s1.
  set (p := {| request := chat_request (trim (input (state s)));
               prompt := trim (input (state s));
               closure_mode := mode (state s) |}) in Hs1.
  assert (Hp : outstanding s1 !! 0%nat = Some p) by (by rewrite Hs1).
  rewrite (step_settle 0 net id2 now2 s1 p Hp).
  destruct (handleSend_resume_appends p net id2 now2 (state s1))
    as (answer & _ & ->).
  subst s1. simpl. eexists _, _.
  repeat (split; [reflexivity|]).
  rewrite <- app_assoc. simpl.
  split; [reflexivity|]. split; [by left | reflexivity].
Qed.

Lemma send_appends_user_then_one_reply_witness :
  let s := step (InputChange (lit " hi ")) (ChatBot (lit "a.pdf") (lit "m0") 0) in
  let s1 := step (Send (lit "m1") 1) s in
  let s2 := step (Settle 0 (NetworkFailure VUndefined) (lit "m2") 2)
              (run [Send (lit "m3") 3] s1) in
  exists u a,
    messages (state s1) = messages (state s) ++ [u] /\
    role u = user /\ content u = VStr (lit "hi") /\
    messages (state (run [Send (lit "m3") 3] s1)) = messages (state s1) /\
    messages (state s2) = messages (state s) ++ [u; a] /\
    (role a = assistant \/ role a = error) /\
    outstanding s2 = [].
Proof.
  intros s s1 s2.
  apply (send_appends_user_then_one_reply (lit "a.pdf") s (lit "m1") (lit "m2")
           1 2 (NetworkFailure VUndefined) [Send (lit "m3") 3]).
  - apply reachable_step, reachable_mount.
  - vm_compute. discriminate.
  - reflexivity.
Defined.

(** C5, as the specification words it, fails: a client whose mode is
    [file_only] sends a request whose [mode] field is ["rag"]. *)
Lemma file_only_client_sends_rag :
  let s := run [InputChange (lit "hi"); Send (lit "m1") 1]
               (ChatBot (lit "a.pdf") (lit "m0") 0) in
  mode (state s) = file_only /\
  exists p, outstanding s = [p] /\
    prop (body (request p)) (lit "mode") = VStr (lit "rag") /\
    prop (body (request p)) (lit "mode") <> VStr (mode_string (mode (state s))).
Proof.
  intros s. split; [reflexivity|].
  eexists. split; [reflexivity|]. split; [reflexivity|].
  vm_compute. discriminate.
Qed.

(** C5, amended. The body of every chat request is
    [{question, mode: "rag"}]: its [mode] field is the constant ["rag"],
    whatever the mode of the client, and the mode of the client is
    [file_only] throughout, for the component never sets it. *)
Theorem chat_request_mode_is_rag (fileName : jsstring) (s : Session) (p : Pending) :
  reachable fileName s -> p ∈ outstanding s ->
  body (request p)
    = VObj [(lit "question", VStr (prompt p)); (lit "mode", VStr (lit "rag"))] /\
  prop (body (request p)) (lit "mode") = VStr (lit "rag") /\
  mode (state s) = file_only.
Proof.
  intros Hr Hp.
  destruct (chat_inv_reachable fileName s Hr) as (Hmode & Hreq & _ & _).
  rewrite list.Forall_forall in Hreq. destruct (Hreq p Hp) as [-> _].
  by repeat split.
Qed.

Lemma chat_request_mode_is_rag_witness :
  let s := run [InputChange (lit "hi"); Send (lit "m1") 1]
               (ChatBot (lit "a.pdf") (lit "m0") 0) in
  let p := {| request := chat_request (lit "hi"); prompt := lit "hi";
              closure_mode := file_only |} in
  prop (body (request p)) (lit "mode") = VStr (lit "rag") /\
  mode (state s) = file_only.
Proof.
  intros s p.
  apply (chat_request_mode_is_rag (lit "a.pdf") s p).
  - apply (reachable_step _ _ (Send (lit "m1") 1)).
    apply (reachable_step _ _ (InputChange (lit "hi"))).
    apply reachable_mount.
  - vm_compute. apply list_elem_of_here.
Defined.

(** C6. Sending is disabled whenever a request is outstanding or the
    trimmed input is empty: the send button is disabled and [handleSend]
    changes nothing and sends nothing.  A send that does something finds
    [loading] false and the trimmed input non-empty.  A request is
    outstanding exactly while [loading] is set. *)
Theorem sending_disabled_while_loading_or_blank (fileName : jsstring) (s : Session) :
  reachable fileName s ->
  (outstanding s <> [] \/ trim (input (state s)) = [] ->
   send_disabled (state s) = true /\
   forall newId now, step (Send newId now) s = s) /\
  (forall newId now, step (Send newId now) s <> s ->
   loading (state s) = false /\ trim (input (state s)) <> []) /\
  (outstanding s <> [] <-> loading (state s) = true).
Proof.
  intros Hr.
  destruct (chat_inv_reachable fileName s Hr) as (_ & _ & _ & Hload).
  assert (Hout : outstanding s <> [] <-> loading (state s) = true).
  { destruct (loading (state s)).
    - destruct Hload as (_ & p & ->). done.
    - rewrite Hload. done. }
  split; [|split; [|done]].
  - intros H.
    assert (H' : trim (input (state s)) = [] \/ loading (state s) = true)
      by (destruct H; [right; by apply Hout | by left]).
    split; [|intros; by apply handleSend_blocked].
    unfold send_disabled. destruct H' as [-> | ->]; [done|].
    by rewrite orb_true_r.
  - intros newId now Hstep. simpl in Hstep.
    destruct (loading (state s)) eqn:Hl.
    + destruct Hstep. apply handleSend_blocked. by right.
    + split; [done|]. intros He. destruct Hstep.
      apply handleSend_blocked. by left.
Qed.

Lemma sending_disabled_while_loading_or_blank_witness :
  let s := step (Send (lit "m1") 1)
             (step (InputChange (lit "hi")) (ChatBot (lit "a.pdf") (lit "m0") 0)) in
  send_disabled (state s) = true /\
  forall newId now, step (Send newId now) s = s.
Proof.
  intros s.
  destruct (sending_disabled_while_loading_or_blank (lit "a.pdf") s) as (H & _).
  - apply (reachable_step _ _ (Send (lit "m1") 1)).
    apply (reachable_step _ _ (InputChange (lit "hi"))).
    apply reachable_mount.
  - apply H. left. vm_compute. discriminate.
Defined.

(** C7. The list of messages is append-only: whatever events a session
    goes through (typing, sending, an answer or an error coming back),
    the list it had is a prefix of the list it has afterwards. *)
Theorem messages_append_only (evs : list Event) (s : Session) :
  messages (state s) `prefix_of` messages (state (run evs s)).
Proof.
  revert s. induction evs as [|e evs IH]; intros s; simpl; [done|].
  etrans; [apply (step_prefix e s) | apply IH].
Qed.

(** C10. [sendMessage] never throws: for every outcome of the request
    its promise is fulfilled, and every failure is caught and turned into
    the fallback string: a request that fails, a response that is not
    2xx, a body that is not JSON, and a body ([null]) on which reading
    the fields raises a [TypeError].  So the settling of a send always
    appends a message of role assistant, whose content is what
    [sendMessage] returned, and no message of a reachable session has the
    role error. *)
Theorem sendMessage_never_throws (fileName : jsstring) (s : Session)
    (i : nat) (p : Pending) (net : fetch_outcome) (newId : jsstring) (now : Z) :
  reachable fileName s -> outstanding s !! i = Some p ->
  (forall question net', exists answer, sendMessage question net' = Normal answer) /\
  (forall question e,
     sendMessage question (NetworkFailure e) = Normal (VStr FALLBACK)) /\
  (forall question r, ok r = false ->
     sendMessage question (Responded r) = Normal (VStr FALLBACK)) /\
  (forall question r e, json r = Throw e ->
     sendMessage question (Responded r) = Normal (VStr FALLBACK)) /\
  (forall question r data, json r = Normal data -> nullish data = true ->
     sendMessage question (Responded r) = Normal (VStr FALLBACK)) /\
  (exists a answer,
     sendMessage (prompt p) net = Normal answer /\
     messages (state (step (Settle i net newId now) s))
     = messages (state s) ++ [a] /\
     role a = assistant /\ content a = answer) /\
  Forall (fun m => role m <> error)
    (messages (state (step (Settle i net newId now) s))).
Proof.
  intros Hr Hp. split; [apply sendMessage_fulfils|].
  split; [apply sendMessage_network_failure|].
  split; [apply sendMessage_not_ok|].
  split; [apply sendMessage_bad_body|].
  split; [|split].
  - intros question r data Hjson Hnull.
    destruct (ok r) eqn:Hok; [|by apply sendMessage_not_ok].
    rewrite (sendMessage_ok question r data Hok Hjson).
    by destruct data.
  - rewrite (step_settle i net newId now s p Hp).
    destruct (handleSend_resume_appends p net newId now (state s))
      as (answer & Ha & ->).
    simpl. by eexists _, answer.
  - assert (Hr' : reachable fileName (step (Settle i net newId now) s))
      by (by constructor).
    by destruct (chat_inv_reachable _ _ Hr') as (_ & _ & ? & _).
Qed.

Lemma sendMessage_never_throws_witness :
  let s := step (Send (lit "m1") 1)
             (step (InputChange (lit "hi")) (ChatBot (lit "a.pdf") (lit "m0") 0)) in
  let net := Responded {| status := 503; json := Throw VUndefined |} in
  exists a answer,
    sendMessage (lit "hi") net = Normal answer /\
    messages (state (step (Settle 0 net (lit "m2") 2) s))
    = messages (state s) ++ [a] /\
    role a = assistant /\ content a = answer.
Proof.
  intros s net.
  destruct (sendMessage_never_throws (lit "a.pdf") s 0
              {| request := chat_request (lit "hi"); prompt := lit "hi";
                 closure_mode := file_only |} net (lit "m2") 2)
    as (_ & _ & _ & _ & _ & H & _).
  - apply (reachable_step _ _ (Send (lit "m1") 1)).
    apply (reachable_step _ _ (InputChange (lit "hi"))).
    apply reachable_mount.
  - reflexivity.
  - exact H.
Defined.

End ChatProperties.

(** ** More on the chat screen: trimming, the shape of a conversation,
    what the bubbles show *)

Section TrimFacts.

Import Chat.

Lemma trimStart_split (s : jsstring) :
  exists l, s = l ++ trimStart s /\ forallb is_white_space l = true.
Proof.
  induction s as [|c s (l & Hl & Hws)]; [by exists []|].
  simpl. destruct (is_white_space c) eqn:Hc.
  - exists (c :: l). simpl. rewrite Hc, Hws. split; [by f_equal | done].
  - by exists [].
Qed.

Lemma trimStart_head (s : jsstring) (c : N) (rest : jsstring) :
  trimStart s = c :: rest -> is_white_space c = false.
Proof.
  induction s as [|d s IH]; simpl; [done|].
  destruct (is_white_space d) eqn:Hd; [exact IH|].
  intros [= -> _]. exact Hd.
Qed.

Lemma trimStart_fixed (s : jsstring) :
  (forall c rest, s = c :: rest -> is_white_space c = false) -> trimStart s = s.
Proof.
  destruct s as [|c s]; [done|]. intros H. simpl.
  by rewrite (H c s eq_refl).
Qed.

Lemma trimEnd_split (s : jsstring) :
  exists r, s = trimEnd s ++ r /\ forallb is_white_space r = true.
Proof.
  destruct (trimStart_split (rev s)) as (l & Hl & Hws).
  exists (rev l). split.
  - unfold trimEnd. rewrite <- rev_app_distr, <- Hl. by rewrite rev_involutive.
  - rewrite forallb_forall in *. intros c Hc. apply Hws. by apply in_rev.
Qed.

Lemma trimEnd_last (s : jsstring) (c : N) (front : jsstring) :
  trimEnd s = front ++ [c] -> is_white_space c = false.
Proof.
  unfold trimEnd. intros H. apply (f_equal (@rev N)) in H.
  rewrite rev_involutive, rev_unit in H. by eapply trimStart_head.
Qed.

Lemma trimEnd_fixed (s : jsstring) :
  (forall c front, s = front ++ [c] -> is_white_space c = false) -> trimEnd s = s.
Proof.
  intros H. unfold trimEnd. rewrite trimStart_fixed; [apply rev_involutive|].
  intros c rest Hr. apply (H c (rev rest)).
  rewrite <- (rev_involutive s), Hr. simpl. done.
Qed.

Lemma trimEnd_head (s : jsstring) (c : N) (rest : jsstring) :
  (forall c' rest', s = c' :: rest' -> is_white_space c' = false) ->
  trimEnd s = c :: rest -> is_white_space c = false.
Proof.
  intros H Ht. destruct (trimEnd_split s) as (r & Hs & _).
  rewrite Ht in Hs. simpl in Hs. by eapply H.
Qed.

Lemma trim_trimmed (s : jsstring) : trimmed (trim s).
Proof.
  split.
  - intros c rest H. unfold trim in H. eapply trimEnd_head; [|exact H].
    intros c' rest'. apply trimStart_head.
  - intros c front H. by eapply trimEnd_last.
Qed.

Lemma trimmed_trim (s : jsstring) : trimmed s -> trim s = s.
Proof.
  intros [Hh Hl]. unfold trim.
  rewrite (trimStart_fixed s Hh). by apply trimEnd_fixed.
Qed.

Lemma trim_split (s : jsstring) :
  exists l r, s = l ++ trim s ++ r
              /\ forallb is_white_space l = true
              /\ forallb is_white_space r = true.
Proof.
  destruct (trimStart_split s) as (l & Hl & Hwl).
  destruct (trimEnd_split (trimStart s)) as (r & Hr & Hwr).
  exists l, r. unfold trim. by rewrite <- Hr.
Qed.

End TrimFacts.

Section ChatFurther.

Import Chat.

(** What an event does to a reachable session: nothing to the messages,
    or the first half of a send, or the second half. *)
Lemma chat_step_cases (fileName : jsstring) (s : Session) (e : Event) :
  reachable fileName s ->
  (messages (state (step e s)) = messages (state s)
   /\ loading (state (step e s)) = loading (state s)
   /\ outstanding (step e s) = outstanding s)
  \/ (exists newId now,
        loading (state s) = false /\ outstanding s = []
        /\ trim (input (state s)) <> []
        /\ step e s
           = {| state :=
                  {| messages := messages (state s) ++
                       [ {| id := newId; role := user;
                            content := VStr (trim (input (state s)));
                            Message.mode := None; timestamp := now |} ];
                     input := [];
                     mode := mode (state s);
                     loading := true |};
                outstanding :=
                  [ {| request := chat_request (trim (input (state s)));
                       prompt := trim (input (state s));
                       closure_mode := mode (state s) |} ] |})
  \/ (exists p net newId now answer,
        loading (state s) = true /\ outstanding s = [p]
        /\ sendMessage (prompt p) net = Normal answer
        /\ step e s
           = {| state :=
                  {| messages := messages (state s) ++
                       [ {| id := newId; role := assistant; content := answer;
                            Message.mode := Some file_only; timestamp := now |} ];
                     input := input (state s);
                     mode := mode (state s);
                     loading := false |};
                outstanding := [] |}).
Proof.
  intros Hr. destruct (chat_inv_reachable fileName s Hr) as (_ & Hreq & _ & Hload).
  destruct e as [v | newId now | i net newId now].
  - left. simpl. unfold textarea_disabled.
    destruct (loading (state s)) eqn:Hl; simpl; by rewrite ?Hl.
  - destruct (loading (state s)) eqn:Hl.
    { left. simpl. rewrite handleSend_blocked by auto. by rewrite Hl. }
    destruct (decide (trim (input (state s)) = [])) as [He|Hne].
    { left. simpl. rewrite handleSend_blocked by auto. by rewrite Hl. }
    right; left. exists newId, now. repeat (split; [done|]).
    simpl. rewrite handleSend_proceeds by done. by rewrite Hload.
  - destruct (outstanding s !! i) as [p|] eqn:Hp; [|left; simpl; by rewrite Hp].
    destruct (loading (state s)) eqn:Hl; [|by rewrite Hload in Hp].
    destruct Hload as (_ & q & Hq). rewrite Hq in Hp, Hreq.
    destruct i as [|i]; [|done]. simpl in Hp. injection Hp as ->.
    apply Forall_inv in Hreq as [_ Hmode].
    right; right.
    destruct (handleSend_resume_appends p net newId now (state s))
      as (answer & Ha & Hres).
    exists p, net, newId, now, answer. repeat (split; [done|]).
    rewrite (step_settle 0 net newId now s p) by (by rewrite Hq).
    rewrite Hres, Hq, Hmode. reflexivity.
Qed.

Lemma concat_repeat_snoc {A} (x : list A) (n : nat) :
  concat (repeat x n) ++ x = concat (repeat x (S n)).
Proof.
  induction n as [|n IH]; simpl; [by rewrite app_nil_r|].
  by rewrite <- app_assoc, IH.
Qed.

(** X1. At most one chat request is outstanding at any time. *)
Theorem at_most_one_request_outstanding (fileName : jsstring) (s : Session) :
  reachable fileName s ->
  length (outstanding s) = if loading (state s) then 1%nat else 0%nat.
Proof.
  intros Hr. destruct (chat_inv_reachable fileName s Hr) as (_ & _ & _ & Hload).
  destruct (loading (state s)).
  - destruct Hload as (_ & p & ->). done.
  - by rewrite Hload.
Qed.

Lemma at_most_one_request_outstanding_witness :
  let s := run [InputChange (lit "a"); Send (lit "m1") 1; Send (lit "m2") 2;
                InputChange (lit "b"); Send (lit "m3") 3]
               (ChatBot (lit "a.pdf") (lit "m0") 0) in
  length (outstanding s) = 1%nat.
Proof.
  intros s.
  apply (at_most_one_request_outstanding (lit "a.pdf") s).
  repeat apply reachable_step. apply reachable_mount.
Defined.

(** X2. The transcript of a reachable session is the greeting followed by
    questions and replies in strict alternation, with one more question at
    the end exactly while a reply is awaited. *)
Theorem transcript_alternates (fileName : jsstring) (s : Session) :
  reachable fileName s ->
  exists n, map role (messages (state s)) = conversation n (loading (state s)).
Proof.
  induction 1 as [newId now | s e Hr (n & IH)]; [by exists 0%nat|].
  destruct (chat_step_cases fileName s e Hr)
    as [(Hm & Hl & _) | [(newId & now & Hl & _ & _ & ->)
                        | (p & net & newId & now & answer & Hl & _ & _ & ->)]].
  - exists n. by rewrite Hm, Hl.
  - exists n. simpl. rewrite map_app, IH, Hl. unfold conversation. simpl.
    by rewrite app_nil_r.
  - exists (S n). simpl. rewrite map_app, IH, Hl. unfold conversation.
    rewrite <- concat_repeat_snoc. simpl.
    rewrite app_nil_r, <- !app_assoc. reflexivity.
Qed.

Lemma transcript_alternates_witness :
  let s := run [InputChange (lit "a"); Send (lit "m1") 1;
                Settle 0 (NetworkFailure VNull) (lit "m2") 2;
                InputChange (lit "b"); Send (lit "m3") 3]
               (ChatBot (lit "a.pdf") (lit "m0") 0) in
  exists n, map role (messages (state s)) = conversation n (loading (state s)).
Proof.
  intros s.
  apply (transcript_alternates (lit "a.pdf") s).
  repeat apply reachable_step. apply reachable_mount.
Defined.

(** X3. Every question in the transcript of a reachable session is a string
    that is not empty and has no white space at either end. *)
Theorem questions_are_trimmed (fileName : jsstring) (s : Session) :
  reachable fileName s ->
  Forall (fun m => role m = user ->
                   exists q, content m = VStr q /\ q <> [] /\ trimmed q /\ trim q = q)
         (messages (state s)).
Proof.
  induction 1 as [newId now | s e Hr IH].
  - repeat constructor. discriminate.
  - destruct (chat_step_cases fileName s e Hr)
      as [(Hm & _ & _) | [(newId & now & _ & _ & Hne & ->)
                         | (p & net & newId & now & answer & _ & _ & _ & ->)]].
    + by rewrite Hm.
    + simpl. apply Forall_app. split; [done|].
      repeat constructor. intros _. simpl.
      exists (trim (input (state s))). repeat split; try done.
      * apply trim_trimmed.
      * apply trim_trimmed.
      * apply trimmed_trim, trim_trimmed.
    + simpl. apply Forall_app. split; [done|].
      repeat constructor. discriminate.
Qed.

Lemma questions_are_trimmed_witness :
  let s := run [InputChange ([9; 32]%N ++ lit "why?" ++ [10; 160]%N);
                Send (lit "m1") 1]
               (ChatBot (lit "a.pdf") (lit "m0") 0) in
  Forall (fun m => role m = user ->
                   exists q, content m = VStr q /\ q <> [] /\ trimmed q /\ trim q = q)
         (messages (state s)).
Proof.
  intros s.
  apply (questions_are_trimmed (lit "a.pdf") s).
  repeat apply reachable_step. apply reachable_mount.
Defined.

(** X4. While a request is outstanding, the question it carries is the text
    of the last bubble of the transcript, which is the user's. *)
Theorem request_carries_last_question (fileName : jsstring) (s : Session)
    (p : Pending) :
  reachable fileName s -> p ∈ outstanding s ->
  exists front m,
    messages (state s) = front ++ [m] /\ role m = user /\
    content m = VStr (prompt p) /\
    prop (body (request p)) (lit "question") = content m.
Proof.
  intros Hr. revert p. induction Hr as [newId now | s e Hr IH]; intros p Hp.
  - by apply elem_of_nil in Hp.
  - destruct (chat_step_cases fileName s e Hr)
      as [(Hm & _ & Ho) | [(newId & now & _ & _ & _ & Hs)
                          | (q & net & newId & now & answer & _ & _ & _ & Hs)]].
    + rewrite Hm. rewrite Ho in Hp. by apply IH.
    + rewrite Hs in Hp |- *. simpl in *.
      apply list_elem_of_singleton in Hp as ->.
      by eexists _, _.
    + rewrite Hs in Hp. by apply elem_of_nil in Hp.
Qed.

Lemma request_carries_last_question_witness :
  let s := run [InputChange (lit " why? "); Send (lit "m1") 1]
               (ChatBot (lit "a.pdf") (lit "m0") 0) in
  let p := {| request := chat_request (lit "why?"); prompt := lit "why?";
              closure_mode := file_only |} in
  exists front m,
    messages (state s) = front ++ [m] /\ role m = user /\
    content m = VStr (lit "why?") /\
    prop (body (request p)) (lit "question") = content m.
Proof.
  intros s p.
  apply (request_carries_last_question (lit "a.pdf") s p).
  - repeat apply reachable_step. apply reachable_mount.
  - vm_compute. apply list_elem_of_here.
Defined.

(** X5. What the bubbles of a reachable session show: the greeting has the
    avatar AI and no mode badge; after it, a question is on the reversed
    side with the avatar U and no badge, and a reply has the avatar AI and
    the badge "File Only". *)
Theorem replies_are_badged_file_only (fileName : jsstring) (s : Session) :
  reachable fileName s ->
  exists greeting rest,
    messages (state s) = greeting :: rest /\
    MessageBubble greeting
    = {| reversed := false; avatar := lit "AI"; badge := None;
         text := VStr (welcome fileName) |} /\
    Forall (fun m =>
              MessageBubble m
              = if bool_decide (role m = user)
                then {| reversed := true; avatar := lit "U"; badge := None;
                        text := content m |}
                else {| reversed := false; avatar := lit "AI";
                        badge := Some (lit "File Only"); text := content m |})
           rest.
Proof.
  induction 1 as [newId now | s e Hr (g & rest & Hm & Hg & Hrest)].
  - eexists _, []. by repeat split.
  - destruct (chat_step_cases fileName s e Hr)
      as [(Hm' & _ & _) | [(newId & now & _ & _ & _ & ->)
                          | (p & net & newId & now & answer & _ & _ & _ & ->)]].
    + exists g, rest. by rewrite Hm'.
    + exists g, (rest ++ [ {| id := newId; role := user;
                              content := VStr (trim (input (state s)));
                              Message.mode := None; timestamp := now |} ]).
      simpl. rewrite Hm. split; [done|]. split; [done|].
      apply Forall_app. split; [done|]. by repeat constructor.
    + exists g, (rest ++ [ {| id := newId; role := assistant; content := answer;
                              Message.mode := Some file_only; timestamp := now |} ]).
      simpl. rewrite Hm. split; [done|]. split; [done|].
      apply Forall_app. split; [done|]. by repeat constructor.
Qed.

Lemma replies_are_badged_file_only_witness :
  let s := run [InputChange (lit "a"); Send (lit "m1") 1;
                Settle 0 (NetworkFailure VNull) (lit "m2") 2]
               (ChatBot (lit "a.pdf") (lit "m0") 0) in
  exists greeting rest,
    messages (state s) = greeting :: rest /\
    MessageBubble greeting
    = {| reversed := false; avatar := lit "AI"; badge := None;
         text := VStr (welcome (lit "a.pdf")) |} /\
    Forall (fun m =>
              MessageBubble m
              = if bool_decide (role m = user)
                then {| reversed := true; avatar := lit "U"; badge := None;
                        text := content m |}
                else {| reversed := false; avatar := lit "AI";
                        badge := Some (lit "File Only"); text := content m |})
           rest.
Proof.
  intros s.
  apply (replies_are_badged_file_only (lit "a.pdf") s).
  repeat apply reachable_step. apply reachable_mount.
Defined.

(** X6. Of the keys pressed in the textarea only Enter without Shift does
    anything: it suppresses the default action and acts as the send
    button does, so it sends only when no request is outstanding and the
    trimmed input is not empty.  Every other key, and Enter with Shift,
    leaves the session alone and the default action in place. *)
Theorem only_plain_enter_sends (e : KeyboardEvent) (newId : jsstring) (now : Z)
    (s : Session) :
  (key e = lit "Enter" -> shiftKey e = false ->
   handleKeyDown e newId now s = (true, step (Send newId now) s)) /\
  (key e <> lit "Enter" \/ shiftKey e = true ->
   handleKeyDown e newId now s = (false, s)) /\
  (snd (handleKeyDown e newId now s) <> s ->
   key e = lit "Enter" /\ shiftKey e = false /\
   loading (state s) = false /\ trim (input (state s)) <> []).
Proof.
  unfold handleKeyDown. repeat split.
  - intros Hk Hs. rewrite bool_decide_eq_true_2 by done. by rewrite Hs.
  - intros [Hk|Hs].
    + by rewrite bool_decide_eq_false_2.
    + rewrite Hs. by rewrite andb_false_r.
  - case_bool_decide; [done|]. simpl in H. by destruct H.
  - destruct (shiftKey e); [|done]. rewrite andb_false_r in H. by destruct H.
  - destruct (bool_decide (key e = lit "Enter") && negb (shiftKey e));
      [|by destruct H]. simpl in H.
    destruct (loading (state s)) eqn:Hl; [|done].
    destruct H. apply handleSend_blocked. by right.
  - destruct (bool_decide (key e = lit "Enter") && negb (shiftKey e));
      [|by destruct H]. simpl in H.
    intros He. destruct H. apply handleSend_blocked. by left.
Qed.

Lemma only_plain_enter_sends_witness :
  let s := step (InputChange (lit "hi")) (ChatBot (lit "a.pdf") (lit "m0") 0) in
  handleKeyDown {| key := lit "Enter"; shiftKey := true |} (lit "m1") 1 s
  = (false, s).
Proof.
  intros s.
  destruct (only_plain_enter_sends {| key := lit "Enter"; shiftKey := true |}
              (lit "m1") 1 s) as (_ & H & _).
  apply H. right. reflexivity.
Defined.

(** X7. A 2xx response whose body is valid JSON but not an object (null, a
    boolean, a number, a string, an array) gives the fallback string. *)
Theorem non_object_body_gives_fallback (question : jsstring) (r : Response)
    (data : value) :
  ok r = true -> json r = Normal data -> (forall props, data <> VObj props) ->
  sendMessage question (Responded r) = Normal (VStr FALLBACK).
Proof.
  intros Hok Hjson Hobj. rewrite (sendMessage_ok question r data Hok Hjson).
  destruct data; try reflexivity. by destruct (Hobj props).
Qed.

Lemma non_object_body_gives_fallback_witness :
  sendMessage (lit "q")
    (Responded {| status := 200; json := Normal (VArr [VStr (lit "answer")]) |})
  = Normal (VStr FALLBACK).
Proof.
  apply (non_object_body_gives_fallback (lit "q") _ (VArr [VStr (lit "answer")]));
    [reflexivity | reflexivity | discriminate].
Defined.

(** X8. A send that goes through empties the input, sets [loading], and sends
    one request whose question is the input without the white space around
    it: the input is that question between two runs of white space. *)
Theorem send_takes_trimmed_input (newId : jsstring) (now : Z) (s : Session) :
  handleSend newId now s <> s ->
  let s' := handleSend newId now s in
  exists l q r,
    input (state s) = l ++ q ++ r /\
    forallb is_white_space l = true /\ forallb is_white_space r = true /\
    q <> [] /\ trimmed q /\
    input (state s') = [] /\ loading (state s') = true /\
    outstanding s'
    = outstanding s ++ [ {| request := chat_request q; prompt := q;
                            closure_mode := mode (state s) |} ].
Proof.
  intros Hne s'.
  assert (Hl : loading (state s) = false).
  { destruct (loading (state s)) eqn:Hl; [|done].
    destruct Hne. apply handleSend_blocked. by right. }
  assert (Hq : trim (input (state s)) <> []).
  { intros He. destruct Hne. apply handleSend_blocked. by left. }
  destruct (trim_split (input (state s))) as (l & r & Hs & Hwl & Hwr).
  exists l, (trim (input (state s))), r.
  unfold s'. rewrite (handleSend_proceeds newId now s Hq Hl). simpl.
  repeat split; try done; apply trim_trimmed.
Qed.

Lemma send_takes_trimmed_input_witness :
  let s := step (InputChange ([32; 9]%N ++ lit "a b" ++ [10]%N))
             (ChatBot (lit "a.pdf") (lit "m0") 0) in
  let s' := handleSend (lit "m1") 1 s in
  exists l q r,
    input (state s) = l ++ q ++ r /\
    forallb is_white_space l = true /\ forallb is_white_space r = true /\
    q <> [] /\ trimmed q /\
    input (state s') = [] /\ loading (state s') = true /\
    outstanding s'
    = outstanding s ++ [ {| request := chat_request q; prompt := q;
                            closure_mode := mode (state s) |} ].
Proof.
  intros s s'.
  apply (send_takes_trimmed_input (lit "m1") 1 s).
  vm_compute. discriminate.
Defined.

End ChatFurther.

(** ** More on the upload screen: one upload at a time, the timers, the
    size and the icon of a file *)

Section UploadFurther.

Import Upload.

Lemma upload_inv_with_state (f : State -> State) (s : Session) :
  (forall st, uploading (f st) = uploading st) ->
  (forall st, progress (f st) = progress st) ->
  (forall st, uploaded st = false -> uploaded (f st) = false) ->
  upload_inv s -> upload_inv (with_state f s).
Proof.
  intros Hu Hp Hd (HI & Hup). unfold upload_inv, with_state. simpl.
  split; [done|]. rewrite Hu, Hp.
  destruct (uploading (state s)); [|done].
  destruct Hup as (Hd' & Hcs). split; [by apply Hd | done].
Qed.

Lemma upload_inv_idle (f : State -> State) (s : Session) :
  uploading (state s) = false -> uploading (f (state s)) = false ->
  upload_inv s -> upload_inv (with_state f s).
Proof.
  intros Hu Hu' (HI & Hup). unfold upload_inv, with_state. simpl.
  rewrite Hu in Hup. by rewrite Hu'.
Qed.

(** While [uploading] is set, a call that is not over is the last one. *)
Lemma in_flight_is_last (s : Session) (j : nat) (cj : Call) :
  upload_inv s -> calls s !! j = Some cj -> stage cj <> Finished ->
  uploading (state s) = true /\ uploaded (state s) = false /\
  exists cs, calls s = cs ++ [cj] /\ j = length cs /\
    Forall (fun c => interval_live c = true -> stage c = AwaitingFetch) cs /\
    Forall (fun c => stage c = Finished) cs /\
    (forall ms, stage cj = AwaitingTimeout ms ->
                ms = 600 /\ progress (state s) = 100%Q).
Proof.
  intros (HI & Hup) Hj Hs.
  destruct (uploading (state s)).
  - destruct Hup as (Hd & cs & c & Hcs & Hfin & Hc & Hms).
    rewrite Hcs in Hj, HI. apply Forall_app in HI as [HIcs _].
    apply lookup_app_Some in Hj as [Hj | [Hle Hj]].
    + destruct Hs. by apply (Forall_lookup_1 _ _ _ _ Hfin Hj).
    + apply list_lookup_singleton_Some in Hj as [Hz ->].
      split; [done|]. split; [done|]. exists cs.
      split; [done|]. split; [lia|]. by repeat (split; [done|]).
  - destruct Hs. by apply (Forall_lookup_1 _ _ _ _ Hup Hj).
Qed.

Lemma insert_last {A} (cs : list A) (c c' : A) :
  <[length cs := c']> (cs ++ [c]) = cs ++ [c'].
Proof. rewrite insert_app_r_alt by lia. by rewrite Nat.sub_diag. Qed.

Lemma upload_inv_step (e : Event) (s : Session) :
  upload_inv s -> upload_inv (step e s).
Proof.
  intros Hinv.
  destruct e as [files| | |files| | | |j random|j net|j]; simpl; unfold on_view.
  - case_bool_decide; [|done]. apply upload_inv_with_state; try done;
      intros st; unfold handleFileChange; by destruct (first_file files).
  - case_bool_decide; [|done]. by apply upload_inv_with_state.
  - case_bool_decide; [|done]. by apply upload_inv_with_state.
  - case_bool_decide; [|done]. apply upload_inv_with_state; try done;
      intros st; unfold handleDrop; by destruct (first_file files).
  - case_bool_decide as Hview; [|done].
    unfold upload_disabled.
    destruct (file (state s)) as [f|] eqn:Hf; simpl; [|done].
    destruct (uploading (state s)) eqn:Hu; simpl; [done|].
    destruct Hinv as (HI & Hup). rewrite Hu in Hup.
    unfold handleUpload, upload_inv. rewrite Hf. simpl. split.
    + apply Forall_app. split; [done|]. by repeat constructor.
    + split; [done|]. eexists _, _. split; [done|]. by repeat split.
  - case_bool_decide; [|done]. unfold clear_shown.
    destruct (is_Some_b (file (state s))); simpl; [|done].
    destruct (uploading (state s)) eqn:Hu; simpl; [done|].
    by apply upload_inv_idle.
  - case_bool_decide as Hview; [|done].
    destruct (uploading (state s)) eqn:Hu.
    + destruct Hinv as (_ & Hup). rewrite Hu in Hup. destruct Hup as [Hd _].
      congruence.
    + by apply upload_inv_idle.
  - destruct (calls s !! j) as [cj|] eqn:Hj; [|done].
    destruct (interval_live cj) eqn:Hlive; [|done].
    assert (Hst : stage cj = AwaitingFetch).
    { destruct Hinv as (HI & _). by apply (Forall_lookup_1 _ _ _ _ HI Hj). }
    destruct (in_flight_is_last s j cj Hinv Hj) as
      (Hu & Hd & cs & Hcs & -> & HIcs & Hfin & _); [by rewrite Hst|].
    unfold run_call. rewrite Hj, interval_callback_eq.
    destruct (Qle_bool 90 (progress (state s))); unfold upload_inv; simpl;
      rewrite Hu, Hd, Hcs, insert_last.
    + split; [apply Forall_app; split; [done|]; by repeat constructor|].
      split; [done|]. eexists _, _. split; [done|]. simpl.
      rewrite Hst. by repeat split.
    + split; [apply Forall_app; split; [done|]; by repeat constructor|].
      split; [done|]. eexists _, _. split; [done|].
      rewrite Hst. by repeat split.
  - unfold stage_of. destruct (calls s !! j) as [cj|] eqn:Hj; simpl; [|done].
    destruct (stage cj) eqn:Hst; try done.
    destruct (in_flight_is_last s j cj Hinv Hj) as
      (Hu & Hd & cs & Hcs & -> & HIcs & Hfin & _); [by rewrite Hst|].
    unfold run_call. rewrite Hj, handleUpload_resume_any.
    unfold upload_inv; simpl. rewrite Hu, Hd, Hcs, insert_last.
    split; [apply Forall_app; split; [done|]; by repeat constructor|].
    split; [done|]. eexists _, _. split; [done|]. simpl.
    split; [done|]. split; [done|]. by intros ms' [= <-].
  - destruct (calls s !! j) as [cj|] eqn:Hj; [|done].
    destruct (stage cj) eqn:Hst; try done.
    destruct (in_flight_is_last s j cj Hinv Hj) as
      (Hu & Hd & cs & Hcs & -> & HIcs & Hfin & _); [by rewrite Hst|].
    unfold upload_inv; simpl. rewrite Hcs, insert_last. split.
    + apply Forall_app. split; [done|]. constructor; [|constructor].
      simpl. intros Hlive. destruct Hinv as (HI & _).
      pose proof (Forall_lookup_1 _ _ _ _ HI Hj Hlive). congruence.
    + apply Forall_app. split; [done|]. by repeat constructor.
Qed.

Lemma upload_inv_reachable (s : Session) : reachable s -> upload_inv s.
Proof.
  induction 1 as [|s e _ IH _]; [|by apply upload_inv_step].
  unfold upload_inv. simpl. by split.
Qed.

Lemma filter_finished (cs : list Call) :
  Forall (fun c => stage c = Finished) cs -> List.filter in_flight cs = [].
Proof.
  induction 1 as [|c cs Hc _ IH]; [done|].
  simpl. unfold in_flight at 1. by rewrite Hc.
Qed.

(** X9. At most one upload is in flight (sent, and its timer not yet fired)
    at any time, and there is one exactly while [uploading] is set; an
    interval timer is live only in a call that still waits for its
    request, so none outlives the request. *)
Theorem one_upload_at_a_time (s : Session) :
  reachable s ->
  length (List.filter in_flight (calls s))
  = (if uploading (state s) then 1%nat else 0%nat) /\
  Forall (fun c => interval_live c = true -> stage c = AwaitingFetch) (calls s).
Proof.
  intros Hr. destruct (upload_inv_reachable s Hr) as (HI & Hup).
  split; [|done].
  destruct (uploading (state s)).
  - destruct Hup as (_ & cs & c & -> & Hfin & Hc & _).
    rewrite List.filter_app, (filter_finished cs Hfin). simpl.
    unfold in_flight. by destruct (stage c).
  - by rewrite (filter_finished _ Hup).
Qed.

Lemma one_upload_at_a_time_witness :
  let f := {| name := lit "a.pdf"; size := 10 |} in
  let s := run [FileChange [f]; ClickUpload; ClickUpload; Tick 0 (1 # 2);
                Drop [f]; ClickUpload] FileUpload in
  length (List.filter in_flight (calls s)) = 1%nat.
Proof.
  intros f s.
  apply (one_upload_at_a_time s).
  apply upload_reachable_run; [constructor|].
  repeat constructor; simpl; lra.
Defined.

(** X10. While an upload is in flight the upload card is rendered with its
    upload button disabled and its clear button absent, and a click on
    any of the three buttons does nothing: an upload can be neither
    restarted nor reset before its timer has fired. *)
Theorem upload_in_flight_locks_buttons (s : Session) (i : nat) (c : Call) :
  reachable s -> calls s !! i = Some c -> stage c <> Finished ->
  uploading (state s) = true /\
  render (state s) = UploadView /\
  upload_disabled (state s) = true /\
  clear_shown (state s) = false /\
  step ClickUpload s = s /\ step ClickClear s = s /\ step ClickNew s = s.
Proof.
  intros Hr Hc Hs.
  destruct (in_flight_is_last s i c (upload_inv_reachable s Hr) Hc Hs)
    as (Hu & Hd & _).
  unfold render, upload_disabled, clear_shown. simpl. unfold on_view.
  unfold upload_disabled, clear_shown. rewrite Hu, Hd. simpl.
  rewrite !orb_true_r, !andb_false_r. by repeat split.
Qed.

Lemma upload_in_flight_locks_buttons_witness :
  let f := {| name := lit "a.pdf"; size := 10 |} in
  let s := run [FileChange [f]; ClickUpload;
                FetchSettled 0 (NetworkFailure VNull)] FileUpload in
  step ClickUpload s = s /\ step ClickClear s = s /\ step ClickNew s = s.
Proof.
  intros f s.
  apply (upload_in_flight_locks_buttons s 0
           {| closure_file := f; request := upload_request f;
              interval_live := false; stage := AwaitingTimeout 600 |}).
  - apply upload_reachable_run; [constructor|]. repeat constructor.
  - reflexivity.
  - discriminate.
Defined.

(** X11. From the settling of the request to the firing of the timer the
    progress is exactly 100 and the timer is the one of 600 ms. *)
Theorem progress_is_100_until_timer (s : Session) (i : nat) (c : Call) (ms : Z) :
  reachable s -> calls s !! i = Some c -> stage c = AwaitingTimeout ms ->
  ms = 600 /\ progress (state s) = 100%Q /\ interval_live c = false.
Proof.
  intros Hr Hc Hs.
  destruct (upload_inv_reachable s Hr) as (HI & _).
  destruct (in_flight_is_last s i c (upload_inv_reachable s Hr) Hc)
    as (_ & _ & _ & _ & _ & _ & _ & Hms); [by rewrite Hs|].
  destruct (Hms ms Hs) as [-> Hp]. repeat split; [done|].
  destruct (interval_live c) eqn:Hl; [|done].
  pose proof (Forall_lookup_1 _ _ _ _ HI Hc Hl). congruence.
Qed.

Lemma progress_is_100_until_timer_witness :
  let f := {| name := lit "a.pdf"; size := 10 |} in
  let s := run [FileChange [f]; ClickUpload; Tick 0 (1 # 2);
                FetchSettled 0 (Responded {| status := 404; json := Normal VNull |});
                Drop []; Tick 0 (1 # 2)] FileUpload in
  progress (state s) = 100%Q.
Proof.
  intros f s.
  apply (progress_is_100_until_timer s 0
           {| closure_file := f; request := upload_request f;
              interval_live := false; stage := AwaitingTimeout 600 |} 600).
  - apply upload_reachable_run; [constructor|]. repeat constructor; simpl; lra.
  - reflexivity.
  - reflexivity.
Defined.

(** X12. Whenever the chat view is rendered no upload is in flight, and the
    reset action leaves every cell but [dragOver] at its initial value. *)
Theorem chat_view_is_idle_and_resets_fully (s : Session) :
  reachable s -> uploaded (state s) = true ->
  uploading (state s) = false /\
  List.filter in_flight (calls s) = [] /\
  state (step ClickNew s)
  = {| file := None; dragOver := dragOver (state s); uploading := false;
       progress := 0; uploaded := false; uploadedFileName := [] |}.
Proof.
  intros Hr Hd. destruct (upload_inv_reachable s Hr) as (_ & Hup).
  destruct (uploading (state s)) eqn:Hu.
  { destruct Hup as [Hd' _]. congruence. }
  split; [done|]. split; [by apply filter_finished|].
  simpl. unfold on_view. rewrite Hd. rewrite bool_decide_eq_true_2 by done.
  unfold with_state, handleReset, setUploadedFileName, setProgress,
    setUploaded, setFile. simpl. by rewrite Hu.
Qed.

Lemma chat_view_is_idle_and_resets_fully_witness :
  let f := {| name := lit "a.pdf"; size := 10 |} in
  let s := run [DragOver; Drop [f]; ClickUpload;
                FetchSettled 0 (NetworkFailure VNull); TimerFired 0] FileUpload in
  state (step ClickNew s) = state FileUpload.
Proof.
  intros f s.
  apply (chat_view_is_idle_and_resets_fully s).
  - apply upload_reachable_run; [constructor|]. repeat constructor.
  - reflexivity.
Defined.

(** Two calls that are not over are one and the same. *)
Lemma in_flight_unique (s : Session) (i j : nat) (c c' : Call) :
  upload_inv s ->
  calls s !! i = Some c -> stage c <> Finished ->
  calls s !! j = Some c' -> stage c' <> Finished ->
  i = j /\ c = c'.
Proof.
  intros Hinv Hi Hc Hj Hc'.
  destruct (in_flight_is_last s i c Hinv Hi Hc) as (_ & _ & cs & Hcs & -> & _).
  destruct (in_flight_is_last s j c' Hinv Hj Hc') as (_ & _ & cs' & Hcs' & -> & _).
  rewrite Hcs in Hcs'. apply app_inj_tail in Hcs' as [-> ->]. done.
Qed.

(** While a call waits for its request with its interval timer cleared,
    no event but the settling of that request touches the call or the
    progress. *)
Lemma pinned_step (e : Event) (s : Session) (i : nat) (c : Call) :
  upload_inv s -> calls s !! i = Some c ->
  stage c = AwaitingFetch -> interval_live c = false ->
  concerns i e = false ->
  calls (step e s) !! i = Some c /\
  progress (state (step e s)) = progress (state s) /\
  uploading (state (step e s)) = true.
Proof.
  intros Hinv Hc Hst Hlive He.
  assert (Hnf : stage c <> Finished) by (by rewrite Hst).
  destruct (in_flight_is_last s i c Hinv Hc Hnf) as (Hu & Hd & _).
  destruct e as [files| | |files| | | |j random|j net|j]; simpl;
    unfold on_view, with_state.
  - case_bool_decide; [|done]. simpl. unfold handleFileChange.
    by destruct (first_file files).
  - by case_bool_decide.
  - by case_bool_decide.
  - case_bool_decide; [|done]. simpl. unfold handleDrop.
    by destruct (first_file files).
  - case_bool_decide; [|done]. unfold upload_disabled.
    by rewrite Hu, orb_true_r.
  - case_bool_decide; [|done]. unfold clear_shown.
    by rewrite Hu, andb_false_r.
  - rewrite Hd. by rewrite bool_decide_eq_false_2.
  - destruct (calls s !! j) as [cj|] eqn:Hj; [|done].
    destruct (interval_live cj) eqn:Hlj; [|done].
    assert (Hsj : stage cj = AwaitingFetch).
    { destruct Hinv as (HI & _). by apply (Forall_lookup_1 _ _ _ _ HI Hj). }
    destruct (in_flight_unique s i j c cj Hinv Hc Hnf Hj) as [_ <-];
      [by rewrite Hsj | congruence].
  - simpl in He. apply Nat.eqb_neq in He.
    unfold stage_of. destruct (calls s !! j) as [cj|] eqn:Hj; simpl; [|done].
    destruct (stage cj) eqn:Hsj; try done.
    destruct (in_flight_unique s i j c cj Hinv Hc Hnf Hj) as [-> _];
      [by rewrite Hsj | done].
  - simpl in He. apply Nat.eqb_neq in He.
    destruct (calls s !! j) as [cj|] eqn:Hj; [|done].
    destruct (stage cj) eqn:Hsj; try done.
    destruct (in_flight_unique s i j c cj Hinv Hc Hnf Hj) as [-> _];
      [by rewrite Hsj | done].
Qed.

Lemma pinned_run (evs : list Event) (s : Session) (i : nat) (c : Call) :
  upload_inv s -> calls s !! i = Some c ->
  stage c = AwaitingFetch -> interval_live c = false ->
  forallb (fun e => negb (concerns i e)) evs = true ->
  calls (run evs s) !! i = Some c /\
  progress (state (run evs s)) = progress (state s) /\
  (evs <> [] -> uploading (state (run evs s)) = true).
Proof.
  revert s. induction evs as [|e evs IH]; intros s Hinv Hc Hst Hl Hevs; simpl.
  - done.
  - apply andb_true_iff in Hevs as [He Hevs]. apply negb_true_iff in He.
    destruct (pinned_step e s i c Hinv Hc Hst Hl He) as (Hc1 & Hp1 & Hu1).
    destruct (IH (step e s) (upload_inv_step e s Hinv) Hc1 Hst Hl Hevs)
      as (Hc2 & Hp2 & Hu2).
    split; [done|]. split; [congruence|]. intros _.
    destruct evs as [|e' evs]; [done | by apply Hu2].
Qed.

(** X13. Once a firing of the interval timer finds the progress at 90 or
    more, it sets it to exactly 90 and clears the timer, and from then on
    the progress stays at 90, whatever the user does and however often
    the timer is made to fire, until the request settles. *)
Theorem tick_pins_progress_at_90 (s : Session) (i : nat) (c : Call)
    (random : Q) (evs : list Event) :
  reachable s ->
  calls s !! i = Some c -> interval_live c = true ->
  (90 <= progress (state s))%Q ->
  forallb (fun e => negb (concerns i e)) evs = true ->
  let s' := run evs (step (Tick i random) s) in
  progress (state s') = 90%Q /\
  uploading (state s') = true /\
  calls s' !! i = Some (set_interval_live false c) /\
  stage_of i s' = Some AwaitingFetch /\
  forall random', step (Tick i random') s' = s'.
Proof.
  intros Hr Hc Hl Hle Hevs s'.
  pose proof (upload_inv_reachable s Hr) as Hinv.
  assert (Hst : stage c = AwaitingFetch).
  { destruct Hinv as (HI & _). by apply (Forall_lookup_1 _ _ _ _ HI Hc). }
  destruct (in_flight_is_last s i c Hinv Hc) as (Hu & _); [by rewrite Hst|].
  set (s1 := step (Tick i random) s) in *.
  assert (H1 : calls s1 !! i = Some (set_interval_live false c)
               /\ progress (state s1) = 90%Q /\ uploading (state s1) = true).
  { unfold s1. simpl. rewrite Hc, Hl.
    unfold run_call. rewrite Hc, interval_callback_eq.
    apply Qle_bool_iff in Hle. rewrite Hle. simpl.
    rewrite list_lookup_insert_eq by (by eapply lookup_lt_Some). done. }
  destruct H1 as (Hc1 & Hp1 & Hu1).
  destruct (pinned_run evs s1 i (set_interval_live false c)
              (upload_inv_step _ _ Hinv) Hc1 Hst eq_refl Hevs)
    as (Hc' & Hp' & Hu').
  fold s' in Hc', Hp', Hu'.
  split; [congruence|]. split.
  - destruct evs as [|e evs]; [exact Hu1 | by apply Hu'].
  - split; [done|]. split.
    + unfold stage_of. rewrite Hc'. simpl. by rewrite Hst.
    + intros random'. simpl. by rewrite Hc'.
Qed.

Lemma tick_pins_progress_at_90_witness :
  let f := {| name := lit "a.pdf"; size := 10 |} in
  let s := run ([FileChange [f]; ClickUpload] ++ repeat (Tick 0 (31 # 32)) 7)
               FileUpload in
  let s' := run [Tick 0 (1 # 3); Drop []; ClickClear; ClickUpload]
                (step (Tick 0 (1 # 2)) s) in
  progress (state s') = 90%Q /\
  uploading (state s') = true /\
  calls s' !! 0%nat
  = Some {| closure_file := f; request := upload_request f;
            interval_live := false; stage := AwaitingFetch |} /\
  stage_of 0 s' = Some AwaitingFetch /\
  forall random', step (Tick 0 random') s' = s'.
Proof.
  intros f s s'.
  apply (tick_pins_progress_at_90 s 0
           {| closure_file := f; request := upload_request f;
              interval_live := true; stage := AwaitingFetch |} (1 # 2)
           [Tick 0 (1 # 3); Drop []; ClickClear; ClickUpload]).
  - apply upload_reachable_run; [constructor|].
    repeat constructor; simpl; lra.
  - reflexivity.
  - reflexivity.
  - vm_compute. discriminate.
  - reflexivity.
Defined.

Lemma progress_bound_witness :
  let f := {| name := lit "a.pdf"; size := 10 |} in
  let s := run ([FileChange [f]; ClickUpload] ++ repeat (Tick 0 (31 # 32)) 7)
               FileUpload in
  (0 <= progress (state s) /\ progress (state s) < 105)%Q.
Proof.
  intros f s. apply (progress_bound s).
  apply upload_reachable_run; [constructor|].
  repeat constructor; simpl; lra.
Defined.

(** X15. From 1024 bytes on, a size below 2^53 is printed in KB (below
    1 MiB) or MB, with one decimal that is the nearest tenth of the exact
    quotient, the upper one on a tie; a size is never printed as less than
    1.0. *)
Theorem formatFileSize_rounds_to_nearest_tenth (bytes : N) :
  (1024 <= bytes)%N -> (bytes < 2 ^ 53)%N ->
  let unit := if (bytes <? 1024 * 1024)%N then 1024%N else (1024 * 1024)%N in
  let suffix := if (bytes <? 1024 * 1024)%N then lit " KB" else lit " MB" in
  exists n,
    formatFileSize bytes
    = decimal (n / 10) ++ lit "." ++ decimal (n mod 10) ++ suffix /\
    (2 * unit * n <= 20 * bytes + unit)%N /\
    (20 * bytes + unit < 2 * unit * (n + 1))%N /\
    (10 <= n)%N.
Proof.
  intros Hb _ unit suffix. unfold formatFileSize.
  assert (H1 : (bytes <? 1024)%N = false) by (apply N.ltb_ge; lia).
  rewrite H1. subst unit suffix.
  destruct (bytes <? 1024 * 1024)%N eqn:H2.
  - exists (tenths bytes 1024). unfold toFixed1.
    split; [by rewrite <- !app_assoc|].
    unfold tenths.
    pose proof (N.div_mod (20 * bytes + 1024) (2 * 1024) ltac:(lia)) as Hd.
    pose proof (N.mod_lt (20 * bytes + 1024) (2 * 1024) ltac:(lia)) as Hm.
    revert Hd Hm.
    generalize ((20 * bytes + 1024) / (2 * 1024))%N
               ((20 * bytes + 1024) mod (2 * 1024))%N.
    intros q r Hd Hm. lia.
  - apply N.ltb_ge in H2.
    exists (tenths bytes (1024 * 1024)). unfold toFixed1.
    split; [by rewrite <- !app_assoc|].
    unfold tenths.
    pose proof (N.div_mod (20 * bytes + 1024 * 1024) (2 * (1024 * 1024))
                  ltac:(lia)) as Hd.
    pose proof (N.mod_lt (20 * bytes + 1024 * 1024) (2 * (1024 * 1024))
                  ltac:(lia)) as Hm.
    revert Hd Hm.
    generalize ((20 * bytes + 1024 * 1024) / (2 * (1024 * 1024)))%N
               ((20 * bytes + 1024 * 1024) mod (2 * (1024 * 1024)))%N.
    intros q r Hd Hm. lia.
Qed.

Lemma formatFileSize_rounds_to_nearest_tenth_witness :
  exists n,
    formatFileSize 1536
    = decimal (n / 10) ++ lit "." ++ decimal (n mod 10) ++ lit " KB" /\
    (2 * 1024 * n <= 20 * 1536 + 1024)%N /\
    (20 * 1536 + 1024 < 2 * 1024 * (n + 1))%N /\
    (10 <= n)%N.
Proof.
  apply (formatFileSize_rounds_to_nearest_tenth 1536).
  - vm_compute. discriminate.
  - reflexivity.
Defined.

(** X16. The last 51 sizes below 1 MiB are rounded up to a figure that is not
    below 1024: they are printed as "1024.0 KB". *)
Theorem formatFileSize_1024_KB (bytes : N) :
  (1048525 <= bytes)%N -> (bytes < 1048576)%N ->
  formatFileSize bytes = lit "1024.0 KB".
Proof.
  intros Hlo Hhi. unfold formatFileSize.
  assert (H1 : (bytes <? 1024)%N = false) by (apply N.ltb_ge; lia).
  assert (H2 : (bytes <? 1024 * 1024)%N = true) by (apply N.ltb_lt; lia).
  rewrite H1, H2. unfold toFixed1.
  assert (Hn : tenths bytes 1024 = 10240%N).
  { unfold tenths. symmetry.
    apply (N.div_unique _ _ _ (20 * bytes + 1024 - 2 * 1024 * 10240)); lia. }
  rewrite Hn. reflexivity.
Qed.

Lemma formatFileSize_1024_KB_witness :
  formatFileSize 1048575 = lit "1024.0 KB".
Proof. apply formatFileSize_1024_KB; lia. Defined.

Lemma split_nonempty (sep : N) (s : jsstring) : split sep s <> [].
Proof.
  induction s as [|c s IH]; simpl; [done|].
  destruct (c =? sep)%N; [done|]. by destruct (split sep s).
Qed.

Lemma split_no_sep (sep : N) (s : jsstring) : sep ∉ s -> split sep s = [s].
Proof.
  induction s as [|c s IH]; [done|].
  intros [Hc Hs]%not_elem_of_cons. simpl.
  assert (Hne : (c =? sep)%N = false) by (apply N.eqb_neq; congruence).
  by rewrite Hne, (IH Hs).
Qed.

Lemma split_app_sep (sep : N) (a b : jsstring) :
  split sep (a ++ sep :: b) = split sep a ++ split sep b.
Proof.
  induction a as [|c a IH]; simpl.
  - by rewrite N.eqb_refl.
  - destruct (c =? sep)%N; [by rewrite IH|].
    rewrite IH. pose proof (split_nonempty sep a).
    by destruct (split sep a).
Qed.

(** [name.split(".").pop()] is what follows the last dot, and the whole
    name if it has none. *)
Lemma last_segment (base ext : jsstring) :
  46%N ∉ ext ->
  list.last (split 46 (base ++ 46%N :: ext)) = Some ext /\
  list.last (split 46 ext) = Some ext.
Proof.
  intros Hext. rewrite split_app_sep, (split_no_sep 46 ext Hext).
  split; [apply last_snoc | done].
Qed.

(** X17. The icon of a file depends on nothing but what follows the last dot
    of its name, and a name without a dot is taken for an extension as a
    whole: [report.pdf] and a file called [pdf] get the same icon. *)
Theorem icon_depends_on_extension_only (toLowerCase : jsstring -> jsstring)
    (base ext : jsstring) :
  46%N ∉ ext ->
  getFileIcon toLowerCase (base ++ 46%N :: ext) = getFileIcon toLowerCase ext.
Proof.
  intros Hext. unfold getFileIcon.
  destruct (last_segment base ext Hext) as [-> ->]. reflexivity.
Qed.

Lemma icon_depends_on_extension_only_witness :
  getFileIcon (map ascii_lower) (lit "report.final.pdf")
  = getFileIcon (map ascii_lower) (lit "pdf").
Proof.
  apply (icon_depends_on_extension_only (map ascii_lower)
           (lit "report.final") (lit "pdf")).
  apply (bool_decide_eq_false_1 (46%N ∈ lit "pdf")). reflexivity.
Defined.

(** X18. For extensions of ASCII characters the icon does not depend on the
    case of the letters, whatever the lower-casing of the browser does
    elsewhere. *)
Theorem icon_ignores_ascii_case (toLowerCase : jsstring -> jsstring)
    (base1 ext1 base2 ext2 : jsstring) :
  (forall s, is_ascii s -> toLowerCase s = map ascii_lower s) ->
  is_ascii ext1 -> is_ascii ext2 -> 46%N ∉ ext1 -> 46%N ∉ ext2 ->
  map ascii_lower ext1 = map ascii_lower ext2 ->
  getFileIcon toLowerCase (base1 ++ 46%N :: ext1)
  = getFileIcon toLowerCase (base2 ++ 46%N :: ext2).
Proof.
  intros Hlow Ha1 Ha2 Hd1 Hd2 Heq. unfold getFileIcon.
  destruct (last_segment base1 ext1 Hd1) as [-> _].
  destruct (last_segment base2 ext2 Hd2) as [-> _].
  simpl. by rewrite (Hlow ext1 Ha1), (Hlow ext2 Ha2), Heq.
Qed.

Lemma icon_ignores_ascii_case_witness :
  getFileIcon (map ascii_lower) (lit "Scan.JPeG")
  = getFileIcon (map ascii_lower) (lit "x.jpeg").
Proof.
  apply (icon_ignores_ascii_case (map ascii_lower)
           (lit "Scan") (lit "JPeG") (lit "x") (lit "jpeg")).
  - reflexivity.
  - repeat constructor.
  - repeat constructor.
  - apply (bool_decide_eq_false_1 (46%N ∈ lit "JPeG")). reflexivity.
  - apply (bool_decide_eq_false_1 (46%N ∈ lit "jpeg")). reflexivity.
  - reflexivity.
Defined.

(** X19. A name that is empty or ends in a dot has the empty extension and
    gets the folder icon. *)
Theorem empty_extension_gives_folder (toLowerCase : jsstring -> jsstring)
    (base : jsstring) :
  toLowerCase [] = [] ->
  getFileIcon toLowerCase [] = [55357; 56513]%N /\
  getFileIcon toLowerCase (base ++ [46%N]) = [55357; 56513]%N.
Proof.
  intros Hlow. unfold getFileIcon.
  destruct (last_segment base [] (not_elem_of_nil _)) as [-> _].
  simpl. rewrite Hlow. by split.
Qed.

Lemma empty_extension_gives_folder_witness :
  getFileIcon (map ascii_lower) (lit "archive.") = [55357; 56513]%N.
Proof.
  apply (empty_extension_gives_folder (map ascii_lower) (lit "archive")).
  reflexivity.
Defined.

(** X20. Dragging, dropping and choosing files never start, stop or alter
    an upload.  On the upload card a drop or a choice of several files
    selects the first of them, one of no file keeps the selection, and a
    drop ends the drag highlight either way.  The two handlers clear
    [uploaded] when they are given a file and leave it as it is when they
    are given none. *)
Theorem drag_and_select_leave_upload_alone (s : Session) (files : list File) :
  same_upload s (step (FileChange files) s) /\
  same_upload s (step DragOver s) /\
  same_upload s (step DragLeave s) /\
  same_upload s (step (Drop files) s) /\
  (uploaded (state s) = false ->
   file (state (step (FileChange files) s))
   = match files with f :: _ => Some f | [] => file (state s) end /\
   file (state (step (Drop files) s))
   = match files with f :: _ => Some f | [] => file (state s) end /\
   dragOver (state (step (Drop files) s)) = false) /\
  (forall st,
     uploaded (handleFileChange files st)
     = match files with _ :: _ => false | [] => uploaded st end /\
     uploaded (handleDrop files st)
     = match files with _ :: _ => false | [] => uploaded st end).
Proof.
  unfold same_upload. simpl. unfold on_view, handleFileChange, handleDrop.
  repeat split; try (case_bool_decide; destruct files; by simpl);
    try (destruct files; by simpl).
  all: intros Hu; rewrite Hu; simpl; by destruct files.
Qed.

Lemma drag_and_select_leave_upload_alone_witness :
  let f := {| name := lit "a.pdf"; size := 10 |} in
  let g := {| name := lit "b.png"; size := 20 |} in
  let s := step DragOver (step (FileChange [f]) FileUpload) in
  file (state (step (Drop [g; f]) s)) = Some g /\
  file (state (step (Drop []) s)) = Some f /\
  dragOver (state (step (Drop []) s)) = false.
Proof.
  intros f g s.
  destruct (drag_and_select_leave_upload_alone s [g; f]) as (_ & _ & _ & _ & H1 & _).
  destruct (drag_and_select_leave_upload_alone s []) as (_ & _ & _ & _ & H2 & _).
  destruct (H1 eq_refl) as (_ & Hg & _). destruct (H2 eq_refl) as (_ & Hf & Hd).
  by repeat split.
Defined.

End UploadFurther.
